(** * Azaamdolarnam: the account bot and the account machine

    A shallow embedding of the two React applications of the repository and
    of the digest they share.

    - [Crypto]  : the digest of [./lib/crypto] (imported by both apps).
    - [Machine] : [MachineApp] of [src/App.tsx], the stepping game.
    - [JSON]    : the text form in which the bot stores its records.
    - [Bot]     : [App] of the registration bot, its generation loop,
                  [registerAccount] and persistence.

    - [MachineRest], [Auth], [BotRest] : loading, views, the sign-in
                  screen, statistics and exports.
    - [BotEvents] : the bot's page under clicks and settlements in any
                  order, with every parked call of [startGeneration].

    The properties follow in the modules named [...Spec].

    Component state ([useState], [useRef]) is modelled by explicit state
    passing: every handler is a function from the state of the component
    (and the answers of its collaborators) to the next state.  JavaScript
    numbers that the code uses as counters are modelled as [Z]. *)

From Stdlib Require Import ZArith QArith Qround List Ascii String Bool Lia.
From stdpp Require Import base tactics option list strings pretty gmap.

#[local] Set Warnings "-register-all".
Local Open Scope Z_scope.

(* ===================================================================== *)
(** ** The digest of [./lib/crypto]                                       *)
(* ===================================================================== *)

Module Crypto.

(** Modelled from the spec: the module [./lib/crypto], which both
    applications import ([import { md5, ... } from './lib/crypto']) and
    whose text is missing.  The specification fixes [md5] as "the standard
    message-digest algorithm whose fixed output is 128 bits (32 hex
    characters)", rendered in lowercase hexadecimal, bit-for-bit compatible
    with the reference vectors: that is MD5 as laid out in RFC 1321. *)

(** 32-bit words are numbers in [Z] reduced modulo [2^32]. *)
Definition wrap32 (x : Z) : Z := x mod 2 ^ 32.
Definition add32 (x y : Z) : Z := wrap32 (x + y).
Definition not32 (x : Z) : Z := Z.lxor (wrap32 x) 0xffffffff.
Definition rotl32 (x : Z) (c : Z) : Z :=
  Z.lor (wrap32 (Z.shiftl x c)) (Z.shiftr (wrap32 x) (32 - c)).

(** Per-round left-rotation amounts. *)
Definition S_table : list Z :=
  [ 7; 12; 17; 22;  7; 12; 17; 22;  7; 12; 17; 22;  7; 12; 17; 22;
    5;  9; 14; 20;  5;  9; 14; 20;  5;  9; 14; 20;  5;  9; 14; 20;
    4; 11; 16; 23;  4; 11; 16; 23;  4; 11; 16; 23;  4; 11; 16; 23;
    6; 10; 15; 21;  6; 10; 15; 21;  6; 10; 15; 21;  6; 10; 15; 21 ].

(** [K_table !! i] is the integer part of [2^32 * abs (sin (i + 1))]. *)
Definition K_table : list Z :=
  [ 0xd76aa478; 0xe8c7b756; 0x242070db; 0xc1bdceee;
    0xf57c0faf; 0x4787c62a; 0xa8304613; 0xfd469501;
    0x698098d8; 0x8b44f7af; 0xffff5bb1; 0x895cd7be;
    0x6b901122; 0xfd987193; 0xa679438e; 0x49b40821;
    0xf61e2562; 0xc040b340; 0x265e5a51; 0xe9b6c7aa;
    0xd62f105d; 0x02441453; 0xd8a1e681; 0xe7d3fbc8;
    0x21e1cde6; 0xc33707d6; 0xf4d50d87; 0x455a14ed;
    0xa9e3e905; 0xfcefa3f8; 0x676f02d9; 0x8d2a4c8a;
    0xfffa3942; 0x8771f681; 0x6d9d6122; 0xfde5380c;
    0xa4beea44; 0x4bdecfa9; 0xf6bb4b60; 0xbebfbc70;
    0x289b7ec6; 0xeaa127fa; 0xd4ef3085; 0x04881d05;
    0xd9d4d039; 0xe6db99e5; 0x1fa27cf8; 0xc4ac5665;
    0xf4292244; 0x432aff97; 0xab9423a7; 0xfc93a039;
    0x655b59c3; 0x8f0ccc92; 0xffeff47d; 0x85845dd1;
    0x6fa87e4f; 0xfe2ce6e0; 0xa3014314; 0x4e0811a1;
    0xf7537e82; 0xbd3af235; 0x2ad7d2bb; 0xeb86d391 ].

(** The chaining value: four 32-bit words. *)
Record md5_state := MkState { sA : Z; sB : Z; sC : Z; sD : Z }.

Definition md5_init : md5_state :=
  MkState 0x67452301 0xefcdab89 0x98badcfe 0x10325476.

(** The input is taken as its sequence of bytes. *)
Definition bytes_of_string (s : string) : list Z :=
  map (fun c => Z.of_N (N_of_ascii c)) (list_ascii_of_string s).

(** Little-endian rendering of a number on [n] bytes. *)
Fixpoint le_bytes (n : nat) (x : Z) : list Z :=
  match n with
  | O => []
  | S k => x mod 256 :: le_bytes k (x / 256)
  end.

(** Padding: one [0x80], zeros up to 56 modulo 64, then the bit length of
    the message on 64 bits, least significant byte first. *)
Definition md5_pad (msg : list Z) : list Z :=
  let len := Z.of_nat (length msg) in
  let zeros := Z.to_nat ((55 - len) mod 64) in
  msg ++ [0x80] ++ repeat 0 zeros ++ le_bytes 8 ((8 * len) mod 2 ^ 64).

(** The sixteen little-endian words of a 64-byte block. *)
Fixpoint words_of_block (n : nat) (block : list Z) : list Z :=
  match n with
  | O => []
  | S k =>
      match block with
      | b0 :: b1 :: b2 :: b3 :: rest =>
          (b0 + 256 * b1 + 65536 * b2 + 16777216 * b3) :: words_of_block k rest
      | _ => 0 :: words_of_block k []
      end
  end.

Definition word_at (M : list Z) (g : Z) : Z := nth (Z.to_nat g) M 0.

(** One of the 64 operations of a block. *)
Definition md5_step (M : list Z) (st : md5_state) (i : Z) : md5_state :=
  let '(MkState a b c d) := st in
  let '(f, g) :=
    if i <? 16 then (Z.lor (Z.land b c) (Z.land (not32 b) d), i)
    else if i <? 32 then (Z.lor (Z.land d b) (Z.land (not32 d) c), (5 * i + 1) mod 16)
    else if i <? 48 then (Z.lxor (Z.lxor b c) d, (3 * i + 5) mod 16)
    else (Z.lxor c (Z.lor b (not32 d)), (7 * i) mod 16) in
  let f' := add32 (add32 (add32 f a) (word_at K_table i)) (word_at M g) in
  MkState d (add32 b (rotl32 f' (word_at S_table i))) b c.

Definition rounds : list Z := map Z.of_nat (seq 0 64).

Definition md5_block (st : md5_state) (block : list Z) : md5_state :=
  let M := words_of_block 16 block in
  let st' := fold_left (md5_step M) rounds st in
  MkState (add32 (sA st) (sA st')) (add32 (sB st) (sB st'))
          (add32 (sC st) (sC st')) (add32 (sD st) (sD st')).

(** The blocks are consumed 64 bytes at a time; [fuel] bounds the number of
    blocks and is the length of the padded message, which is enough. *)
Fixpoint md5_blocks (fuel : nat) (st : md5_state) (data : list Z) : md5_state :=
  match fuel with
  | O => st
  | S k =>
      match data with
      | [] => st
      | _ => md5_blocks k (md5_block st (firstn 64 data)) (skipn 64 data)
      end
  end.

Definition hex_digit (n : Z) : ascii :=
  match String.get (Z.to_nat n) "0123456789abcdef" with
  | Some c => c
  | None => "0"%char
  end.

Definition hex_of_byte (b : Z) : list ascii :=
  [hex_digit ((b / 16) mod 16); hex_digit (b mod 16)].

Definition hex_of_word (w : Z) : list ascii :=
  flat_map hex_of_byte (le_bytes 4 w).

Definition hex_of_state (st : md5_state) : string :=
  string_of_list_ascii
    (hex_of_word (sA st) ++ hex_of_word (sB st) ++
     hex_of_word (sC st) ++ hex_of_word (sD st)).

(** Modelled from the spec: [md5] of [./lib/crypto], whose text is missing;
    the specification names it [digest_md5 (input : String) -> String] and
    fixes it as the standard 128-bit message digest in lowercase hex. *)
Definition digest_md5 (input : string) : string :=
  let data := md5_pad (bytes_of_string input) in
  hex_of_state (md5_blocks (length data) md5_init data).

(** The name under which both applications import the digest. *)
Definition md5 : string -> string := digest_md5.

(** Membership in [[0-9a-f]]. *)
Definition is_lower_hex (c : ascii) : bool :=
  let n := N_of_ascii c in
  ((48 <=? n) && (n <=? 57) || (97 <=? n) && (n <=? 102))%N.

End Crypto.

(* ===================================================================== *)
(** ** The machine: [MachineApp] of [src/App.tsx]                         *)
(* ===================================================================== *)

Module Machine.

(** The two interfaces of the machine's [./types]. *)
Record GeneratedAccount := {
  id : string;
  email : string;
  password_plain : string;
  password_md5 : string;
  created_at : string;
  acc_user_id : option string   (* [user_id?] *)
}.

Record GameState := {
  user_id : string;
  current_index : Z;
  current_level : Z;
  updated_at : option string
}.

(** A row pushed by [handleGenerate], before the store gives it an id. *)
Record NewAccountRow := {
  new_user_id : string;
  new_email : string;
  new_password_plain : string;
  new_password_md5 : string;
  new_created_at : string;
  new_status : string
}.

(** What the component asks of the hosted store, in order of issue. *)
Inductive remote_call :=
| UpsertGameState (row : GameState)
| InsertAccounts (rows : list NewAccountRow)
| DeleteAccounts (uid : string).

(** The state of [MachineApp]: its [useState] cells, the id of the session
    it was given, and the calls and alerts it has issued so far. *)
Record App := {
  session_user_id : string;
  accounts : list GeneratedAccount;
  gameState : GameState;
  targetCount : Q;                (* the number in the count field *)
  isGenerating : bool;
  calls : list remote_call;
  alerts : list string
}.

(** [useState] initial values (lines 108-113). *)
Definition initial (uid : string) : App :=
  {| session_user_id := uid;
     accounts := [];
     gameState := {| user_id := uid; current_index := 0; current_level := 1;
                     updated_at := None |};
     targetCount := inject_Z 10;
     isGenerating := false;
     calls := [];
     alerts := [] |}.

Definition setGameState (g : GameState) (st : App) : App :=
  {| session_user_id := session_user_id st; accounts := accounts st;
     gameState := g; targetCount := targetCount st;
     isGenerating := isGenerating st; calls := calls st; alerts := alerts st |}.

Definition setAccounts (l : list GeneratedAccount) (st : App) : App :=
  {| session_user_id := session_user_id st; accounts := l;
     gameState := gameState st; targetCount := targetCount st;
     isGenerating := isGenerating st; calls := calls st; alerts := alerts st |}.

Definition setIsGenerating (b : bool) (st : App) : App :=
  {| session_user_id := session_user_id st; accounts := accounts st;
     gameState := gameState st; targetCount := targetCount st;
     isGenerating := b; calls := calls st; alerts := alerts st |}.

Definition issue (c : remote_call) (st : App) : App :=
  {| session_user_id := session_user_id st; accounts := accounts st;
     gameState := gameState st; targetCount := targetCount st;
     isGenerating := isGenerating st; calls := calls st ++ [c];
     alerts := alerts st |}.

Definition alert (msg : string) (st : App) : App :=
  {| session_user_id := session_user_id st; accounts := accounts st;
     gameState := gameState st; targetCount := targetCount st;
     isGenerating := isGenerating st; calls := calls st;
     alerts := alerts st ++ [msg] |}.

(** [{ ...gameState, current_index: idx, current_level: lvl }] *)
Definition withIndexLevel (g : GameState) (idx lvl : Z) : GameState :=
  {| user_id := user_id g; current_index := idx; current_level := lvl;
     updated_at := updated_at g |}.

(** [handleNext] (lines 198-220); [now] is [new Date().toISOString()]. *)
Definition handleNext (now : string) (st : App) : App :=
  if (Z.of_nat (length (accounts st)) =? 0) then st
  else
    let nextIndex := current_index (gameState st) + 1 in
    let nextLevel := current_level (gameState st) in
    let '(nextIndex, nextLevel) :=
      if nextIndex >=? Z.of_nat (length (accounts st))
      then (0, nextLevel + 1)
      else (nextIndex, nextLevel) in
    let st := setGameState (withIndexLevel (gameState st) nextIndex nextLevel) st in
    issue (UpsertGameState
             {| user_id := session_user_id st; current_index := nextIndex;
                current_level := nextLevel; updated_at := Some now |}) st.

(** [updateGameState] (lines 222-229). *)
Definition updateGameState (idx lvl : Z) (st : App) : App :=
  let st := setGameState (withIndexLevel (gameState st) idx lvl) st in
  issue (UpsertGameState
           {| user_id := session_user_id st; current_index := idx;
              current_level := lvl; updated_at := None |}) st.

(** [handleReset] (lines 237-247).  [confirmed] is the answer to the
    [confirm] dialog and [deleteError] the [error] of the delete request. *)
Definition handleReset (confirmed : bool) (deleteError : option string)
    (st : App) : App :=
  if confirmed then
    let st := issue (DeleteAccounts (session_user_id st)) st in
    match deleteError with
    | Some message => alert ("فشل الحذف: " ++ message) st
    | None => setAccounts [] (updateGameState 0 1 st)
    end
  else st.

(** One turn of the generation loop draws a password, an email and a date. *)
Record draw := {
  drawn_password : string;
  drawn_email : string;
  drawn_date : string
}.

(** The answer of the bulk insert: [{ data, error }]. *)
Record insert_response := {
  data : option (list GeneratedAccount);
  error : option string
}.

(** The local loop of [handleGenerate] (lines 166-176): one row per
    [i = 0, 1, 2, ...] below [targetCount].  The count field is read with
    [Number] (line 266), so [targetCount] need not be whole: the number
    of such [i] is its ceiling, and none when it is not positive. *)
Definition newAccounts (draws : nat -> draw) (st : App) : list NewAccountRow :=
  map (fun i =>
         let plain := drawn_password (draws i) in
         {| new_user_id := session_user_id st;
            new_email := drawn_email (draws i);
            new_password_plain := plain;
            new_password_md5 := Crypto.md5 plain;
            new_created_at := drawn_date (draws i);
            new_status := "ready" |})
      (seq 0 (Z.to_nat (Qceiling (targetCount st)))).

(** [handleGenerate] (lines 161-195). *)
Definition handleGenerate (draws : nat -> draw) (resp : insert_response)
    (st : App) : App :=
  let before := st in
  let st := setIsGenerating true st in
  let st := issue (InsertAccounts (newAccounts draws before)) st in
  let st :=
    match error resp with
    | Some message => alert ("فشل التوليد: " ++ message) st
    | None =>
        match data resp with
        | Some rows =>
            let st := setAccounts (accounts st ++ rows) st in
            (* Reset game if it was empty *)
            if (Z.of_nat (length (accounts before)) =? 0)
            then updateGameState 0 1 st
            else st
        | None => st
        end
    end in
  setIsGenerating false st.

(** The invariant of the game state record. *)
Definition invariant (st : App) : Prop :=
  (accounts st <> [] ->
   0 <= current_index (gameState st) < Z.of_nat (length (accounts st))) /\
  1 <= current_level (gameState st).

(** The counter of the specification's design notes:
    [(index, level, list_length) -> (new_index, new_level)]. *)
Definition step_counter (index level n : Z) : Z * Z :=
  if index + 1 <? n then (index + 1, level) else (0, level + 1).

(** A state used to exercise the handlers: two accounts, the pointer on
    the last one, level 3. *)
Definition two_accounts : list GeneratedAccount :=
  [ {| id := "a"; email := "a@x.io"; password_plain := "p"; password_md5 := "";
       created_at := "2024-01-01"; acc_user_id := Some "u" |};
    {| id := "b"; email := "b@x.io"; password_plain := "q"; password_md5 := "";
       created_at := "2024-01-02"; acc_user_id := Some "u" |} ].

Definition at_last_account : App :=
  setGameState
    {| user_id := "u"; current_index := 1; current_level := 3; updated_at := None |}
    (setAccounts two_accounts (initial "u")).

End Machine.

(* ===================================================================== *)
(** ** JSON text of flat records                                          *)
(* ===================================================================== *)

Module JSON.

(** The bot keeps its list in [localStorage] as the text written by
    [JSON.stringify] and read back by [JSON.parse].  These are built-ins of
    the platform; this module models them on the values the bot stores:
    arrays of objects whose members are strings.  Writing follows the
    quoting rules of the language standard (escapes for the quote, the
    backslash and the control characters); reading accepts the escapes of
    the JSON grammar.  Strings are sequences of 8-bit characters, so an
    escape [\uXXXX] above [00ff] has no counterpart and is refused. *)

Definition dquote : ascii := "034"%char.
Definition backslash : ascii := "092"%char.

Definition char_code (c : ascii) : Z := Z.of_N (N_of_ascii c).
Definition char_of_code (n : Z) : ascii := ascii_of_N (Z.to_N n).

(** The two-character escapes of the quoting table. *)
Definition short_escape (c : ascii) : option ascii :=
  let n := char_code c in
  if n =? 8 then Some "b"%char
  else if n =? 9 then Some "t"%char
  else if n =? 10 then Some "n"%char
  else if n =? 12 then Some "f"%char
  else if n =? 13 then Some "r"%char
  else if n =? 34 then Some dquote
  else if n =? 92 then Some backslash
  else None.

Definition escape (c : ascii) : string :=
  match short_escape c with
  | Some e => String backslash (String e EmptyString)
  | None =>
      if char_code c <? 32 then
        String backslash
          (String "u" (String "0" (String "0"
             (String (Crypto.hex_digit (char_code c / 16))
                (String (Crypto.hex_digit (char_code c mod 16)) EmptyString)))))
      else String c EmptyString
  end.

Fixpoint escape_all (s : string) : string :=
  match s with
  | EmptyString => EmptyString
  | String c rest => escape c ++ escape_all rest
  end.

(** [QuoteJSONString]. *)
Definition quote (s : string) : string :=
  String dquote (escape_all s ++ String dquote EmptyString).

Definition unhex (c : ascii) : option Z :=
  let n := char_code c in
  if (48 <=? n) && (n <=? 57) then Some (n - 48)
  else if (97 <=? n) && (n <=? 102) then Some (n - 87)
  else if (65 <=? n) && (n <=? 70) then Some (n - 55)
  else None.

(** The character denoted by the letter after a backslash. *)
Definition unescape (e : ascii) : option ascii :=
  let n := char_code e in
  if n =? 34 then Some dquote
  else if n =? 92 then Some backslash
  else if n =? 47 then Some "/"%char
  else if n =? 98 then Some (char_of_code 8)
  else if n =? 116 then Some (char_of_code 9)
  else if n =? 110 then Some (char_of_code 10)
  else if n =? 102 then Some (char_of_code 12)
  else if n =? 114 then Some (char_of_code 13)
  else None.

Definition push (c : ascii) (r : option (string * string)) : option (string * string) :=
  match r with
  | Some (s, rest) => Some (String c s, rest)
  | None => None
  end.

(** Reads the characters of a string literal whose opening quote has been
    consumed; answers the string and the text after the closing quote. *)
Fixpoint read_chars (text : string) : option (string * string) :=
  match text with
  | EmptyString => None
  | String c rest =>
      if Ascii.eqb c dquote then Some (EmptyString, rest)
      else if Ascii.eqb c backslash then
        match rest with
        | EmptyString => None
        | String e rest1 =>
            if Ascii.eqb e "u" then
              match rest1 with
              | String h1 (String h2 (String h3 (String h4 rest2))) =>
                  match unhex h1, unhex h2, unhex h3, unhex h4 with
                  | Some d1, Some d2, Some d3, Some d4 =>
                      let n := ((d1 * 16 + d2) * 16 + d3) * 16 + d4 in
                      if n <? 256 then push (char_of_code n) (read_chars rest2)
                      else None
                  | _, _, _, _ => None
                  end
              | _ => None
              end
            else
              match unescape e with
              | Some c' => push c' (read_chars rest1)
              | None => None
              end
        end
      else if char_code c <? 32 then None
      else push c (read_chars rest)
  end.

(** A flat object: its members in order of appearance. *)
Definition flat_object := list (string * string).

Definition write_member (m : string * string) : string :=
  quote (fst m) ++ ":" ++ quote (snd m).

Fixpoint write_members (ms : flat_object) : string :=
  match ms with
  | [] => ""
  | [m] => write_member m
  | m :: rest => write_member m ++ "," ++ write_members rest
  end.

Definition write_object (ms : flat_object) : string :=
  "{" ++ write_members ms ++ "}".

Fixpoint write_elements (os : list flat_object) : string :=
  match os with
  | [] => ""
  | [o] => write_object o
  | o :: rest => write_object o ++ "," ++ write_elements rest
  end.

Definition write_array (os : list flat_object) : string :=
  "[" ++ write_elements os ++ "]".

(** Reads [key:value] pairs up to and including the closing brace. *)
Fixpoint read_members (fuel : nat) (text : string) : option (flat_object * string) :=
  match fuel with
  | O => None
  | S k =>
      match text with
      | String q t1 =>
          if Ascii.eqb q dquote then
            match read_chars t1 with
            | Some (key, String colon (String q2 t2)) =>
                if Ascii.eqb colon ":" && Ascii.eqb q2 dquote then
                  match read_chars t2 with
                  | Some (val, String sep t3) =>
                      if Ascii.eqb sep "}" then Some ([(key, val)], t3)
                      else if Ascii.eqb sep "," then
                        match read_members k t3 with
                        | Some (ms, t4) => Some ((key, val) :: ms, t4)
                        | None => None
                        end
                      else None
                  | _ => None
                  end
                else None
            | _ => None
            end
          else None
      | EmptyString => None
      end
  end.

Definition read_object (fuel : nat) (text : string) : option (flat_object * string) :=
  match text with
  | String open t1 =>
      if Ascii.eqb open "{" then
        match t1 with
        | String close t2 =>
            if Ascii.eqb close "}" then Some ([], t2) else read_members fuel t1
        | EmptyString => None
        end
      else None
  | EmptyString => None
  end.

(** Reads objects up to and including the closing bracket. *)
Fixpoint read_elements (fuel : nat) (text : string) : option (list flat_object * string) :=
  match fuel with
  | O => None
  | S k =>
      match read_object (String.length text) text with
      | Some (o, String sep t1) =>
          if Ascii.eqb sep "]" then Some ([o], t1)
          else if Ascii.eqb sep "," then
            match read_elements k t1 with
            | Some (os, t2) => Some (o :: os, t2)
            | None => None
            end
          else None
      | _ => None
      end
  end.

(** Reads a whole text as an array of flat objects; [None] stands for the
    [SyntaxError] of [JSON.parse] and for texts of another shape. *)
Definition read_array (text : string) : option (list flat_object) :=
  match text with
  | String open t1 =>
      if Ascii.eqb open "[" then
        match t1 with
        | String close t2 =>
            if Ascii.eqb close "]" then
              match t2 with EmptyString => Some [] | _ => None end
            else
              match read_elements (String.length t1) t1 with
              | Some (os, EmptyString) => Some os
              | _ => None
              end
        | EmptyString => None
        end
      else None
  | EmptyString => None
  end.

(** [obj[key]] after parsing: the last member of that name. *)
Fixpoint field (key : string) (ms : flat_object) : option string :=
  match ms with
  | [] => None
  | (k, v) :: rest =>
      match field key rest with
      | Some v' => Some v'
      | None => if String.eqb k key then Some v else None
      end
  end.

End JSON.

(* ===================================================================== *)
(** ** The bot: [App] of the registration bot                             *)
(* ===================================================================== *)

Module Bot.

(** [src/types.ts] *)
Inductive Status := PENDING | SUCCESS | ERROR.

Record GeneratedAccount := {
  id : string;
  email : string;
  passwordPlain : string;
  passwordMd5 : string;
  status : Status;
  createdAt : string;
  errorMessage : option string   (* [errorMessage?] *)
}.

Record RegistrationPayload := {
  account : string;
  pwd : string;
  user_type : Z;
  user_email : string;
  code : string;
  captcha : string;
  telegram : string;
  whatsapp : string
}.

(** A thrown [Error] object, of which the code reads [message] only. *)
Record Error := { message : string }.

(** A value produced by [response.json()].  Numbers are modelled at
    integral values. *)
Inductive js_value :=
| JsNull
| JsBool (b : bool)
| JsNumber (n : Z)
| JsString (s : string)
| JsArray (items : list js_value)
| JsObject (fields : list (string * js_value)).

(** What [await response.json()] gives: a rejection or a value. *)
Inductive json_outcome :=
| JsonRejected (e : Error)
| JsonValue (data : js_value).

(** What [await fetch(url, ...)] gives: a rejection (network failure,
    blocked cross-origin request) or a response with its [ok] flag, its
    [status] and its body. *)
Inductive fetch_outcome :=
| FetchRejected (e : Error)
| FetchResponse (ok : bool) (http_status : Z) (body : json_outcome).

(** An [async] call either returns or throws. *)
Inductive completion (A : Type) :=
| Return (a : A)
| Throw (e : Error).
Arguments Return {A} a.
Arguments Throw {A} e.

(** JavaScript truthiness of a value. *)
Definition truthy (v : js_value) : bool :=
  match v with
  | JsNull => false
  | JsBool b => b
  | JsNumber n => negb (n =? 0)
  | JsString s => negb (String.eqb s "")
  | JsArray _ | JsObject _ => true
  end.

(** [data.code]: the last member named [code] of an object literal, and
    [undefined] (here [None]) on every other value. *)
Fixpoint member (key : string) (fields : list (string * js_value)) : option js_value :=
  match fields with
  | [] => None
  | (k, v) :: rest =>
      match member key rest with
      | Some v' => Some v'
      | None => if String.eqb k key then Some v else None
      end
  end.

Definition code_of (data : js_value) : option js_value :=
  match data with
  | JsObject fields => member "code" fields
  | _ => None
  end.

(** The condition of line 129:
    [data && typeof data.code === 'number' && data.code !== 200 && data.code !== 0]. *)
Definition code_refused (data : js_value) : bool :=
  truthy data &&
  match code_of data with
  | Some (JsNumber n) => negb (n =? 200) && negb (n =? 0)
  | _ => false
  end.

Definition url : string := "https://api.zaminer.cc/api/user/register?lang=ar".

(** The request body built at lines 100-109. *)
Definition payload_of (acc : GeneratedAccount) : RegistrationPayload :=
  {| account := email acc;
     pwd := passwordMd5 acc;
     user_type := 1;
     user_email := email acc;
     code := "kyr5ib";
     captcha := "";
     telegram := "";
     whatsapp := "" |}.

(** [registerAccount] (lines 97-138), against the answer of the network.
    The [catch] clause rethrows what it caught. *)
Definition registerAccount (acc : GeneratedAccount) (net : fetch_outcome)
    : completion unit :=
  match net with
  | FetchRejected e => Throw e
  | FetchResponse ok http_status body =>
      if negb ok then Throw {| message := "HTTP " ++ pretty http_status |}
      else
        match body with
        | JsonRejected e => Throw e
        | JsonValue data =>
            if code_refused data
            then (* throw new Error(data.msg || "API Error") is commented out *)
                 Return tt
            else Return tt
        end
  end.

(** *** Persistence (lines 24-39) *)

Definition status_text (s : Status) : string :=
  match s with
  | PENDING => "PENDING"
  | SUCCESS => "SUCCESS"
  | ERROR => "ERROR"
  end.

Definition status_of_text (s : string) : option Status :=
  if String.eqb s "PENDING" then Some PENDING
  else if String.eqb s "SUCCESS" then Some SUCCESS
  else if String.eqb s "ERROR" then Some ERROR
  else None.

(** The own properties of a record, in the order in which the object
    literal of line 60 and the spreads of lines 74 and 79 create them. *)
Definition members_of (acc : GeneratedAccount) : JSON.flat_object :=
  [ ("id", id acc); ("email", email acc);
    ("passwordPlain", passwordPlain acc); ("passwordMd5", passwordMd5 acc);
    ("status", status_text (status acc)); ("createdAt", createdAt acc) ]
  ++ match errorMessage acc with
     | Some msg => [("errorMessage", msg)]
     | None => []
     end.

(** The record that an object read from storage stands for. *)
Definition account_of (ms : JSON.flat_object) : option GeneratedAccount :=
  match JSON.field "id" ms, JSON.field "email" ms,
        JSON.field "passwordPlain" ms, JSON.field "passwordMd5" ms,
        JSON.field "status" ms, JSON.field "createdAt" ms with
  | Some i, Some e, Some pp, Some pm, Some st, Some ca =>
      match status_of_text st with
      | Some s =>
          Some {| id := i; email := e; passwordPlain := pp; passwordMd5 := pm;
                  status := s; createdAt := ca;
                  errorMessage := JSON.field "errorMessage" ms |}
      | None => None
      end
  | _, _, _, _, _, _ => None
  end.

Fixpoint accounts_of (os : list JSON.flat_object) : option (list GeneratedAccount) :=
  match os with
  | [] => Some []
  | o :: rest =>
      match account_of o, accounts_of rest with
      | Some a, Some l => Some (a :: l)
      | _, _ => None
      end
  end.

(** [JSON.stringify(accounts)] *)
Definition JSON_stringify (l : list GeneratedAccount) : string :=
  JSON.write_array (map members_of l).

(** [JSON.parse(saved)], typed as [GeneratedAccount[]]; [None] when it
    throws.  A text that is valid JSON without being the text of a list of
    records has no typed counterpart (the program would adopt its value
    as it is, line 29); the reader answers [None] on it as well, so that
    [JSON_parse], and [mount] below, speak for the program on the texts
    the application writes, on a missing key and on the empty text. *)
Definition JSON_parse (text : string) : option (list GeneratedAccount) :=
  match JSON.read_array text with
  | Some os => accounts_of os
  | None => None
  end.

Definition storage_key : string := "z_autoreg_accounts".

(** *** The component *)

(** The state of the component: its [useState] cells (the progress
    percentage, a display value computed in floating point, is left out),
    the [shouldStopRef] cell, the browser's [localStorage], and the
    requests sent so far. *)
Record App := {
  targetCount : Z;
  isRunning : bool;
  accounts : list GeneratedAccount;
  shouldStopRef : bool;
  localStorage : gmap string string;
  requests : list (string * RegistrationPayload)
}.

Definition setIsRunning (b : bool) (st : App) : App :=
  {| targetCount := targetCount st; isRunning := b; accounts := accounts st;
     shouldStopRef := shouldStopRef st; localStorage := localStorage st;
     requests := requests st |}.

Definition setShouldStop (b : bool) (st : App) : App :=
  {| targetCount := targetCount st; isRunning := isRunning st;
     accounts := accounts st; shouldStopRef := b;
     localStorage := localStorage st; requests := requests st |}.

Definition setLocalStorage (m : gmap string string) (st : App) : App :=
  {| targetCount := targetCount st; isRunning := isRunning st;
     accounts := accounts st; shouldStopRef := shouldStopRef st;
     localStorage := m; requests := requests st |}.

Definition send (r : string * RegistrationPayload) (st : App) : App :=
  {| targetCount := targetCount st; isRunning := isRunning st;
     accounts := accounts st; shouldStopRef := shouldStopRef st;
     localStorage := localStorage st; requests := requests st ++ [r] |}.

(** The state update of [setAccounts(prev => f prev)] alone. *)
Definition updateAccounts (f : list GeneratedAccount -> list GeneratedAccount)
    (st : App) : App :=
  {| targetCount := targetCount st; isRunning := isRunning st;
     accounts := f (accounts st); shouldStopRef := shouldStopRef st;
     localStorage := localStorage st; requests := requests st |}.

(** The effect of lines 37-39, run after a render in which [accounts]
    is a new array. *)
Definition saveEffect (st : App) : App :=
  setLocalStorage
    (<[storage_key := JSON_stringify (accounts st)]> (localStorage st)) st.

(** [setAccounts] followed by the render it causes.  Every call of the
    component passes a freshly built array, so the effect always runs. *)
Definition setAccounts (f : list GeneratedAccount -> list GeneratedAccount)
    (st : App) : App :=
  saveEffect (updateAccounts f st).

(** What the effect of lines 25-34 passes to [setAccounts], if anything:
    the stored text must be present, non-empty and parse. *)
Definition loadEffect (st : App) : option (list GeneratedAccount) :=
  match localStorage st !! storage_key with
  | Some saved => if String.eqb saved "" then None else JSON_parse saved
  | None => None
  end.

(** The first render over a given storage: both effects run in order on
    the initial state, then the state set by the first one is rendered. *)
Definition mount (storage : gmap string string) : App :=
  let st := {| targetCount := 10; isRunning := false; accounts := [];
               shouldStopRef := false; localStorage := storage;
               requests := [] |} in
  let loaded := loadEffect st in
  let st := saveEffect st in
  match loaded with
  | Some l => setAccounts (fun _ => l) st
  | None => st
  end.

(** [deleteAccount] (lines 144-146). *)
Definition deleteAccount (i : string) (st : App) : App :=
  setAccounts (filter (fun a => negb (String.eqb (id a) i))) st.

(** [clearAll] (lines 148-153); [confirmed] is the answer to [confirm]. *)
Definition clearAll (confirmed : bool) (st : App) : App :=
  if confirmed then
    let st := updateAccounts (fun _ => []) st in
    let st := setLocalStorage (delete storage_key (localStorage st)) st in
    saveEffect st
  else st.

(** *** The generation loop (lines 46-95) *)

(** [stopGeneration] (lines 92-95). *)
Definition stopGeneration (st : App) : App :=
  setIsRunning false (setShouldStop true st).

(** What the surroundings contribute to one turn of the loop: the drawn
    email, password and id, the date, the answer of the network, and
    whether the stop button is pressed while the request, respectively the
    delay, is awaited.  This describes a run on its own; the other clicks
    that the page takes while a run is parked are events of [BotEvents]. *)
Record turn := {
  t_email : string;
  t_password : string;
  t_id : string;
  t_createdAt : string;
  t_net : fetch_outcome;
  t_stop_in_flight : bool;
  t_stop_in_delay : bool
}.

(** The object literal of lines 60-67. *)
Definition newAccount_of (t : turn) : GeneratedAccount :=
  {| id := t_id t;
     email := t_email t;
     passwordPlain := t_password t;
     passwordMd5 := Crypto.md5 (t_password t);
     status := PENDING;
     createdAt := t_createdAt t;
     errorMessage := None |}.

(** [{ ...acc, status: 'SUCCESS' }] *)
Definition withSuccess (acc : GeneratedAccount) : GeneratedAccount :=
  {| id := id acc; email := email acc; passwordPlain := passwordPlain acc;
     passwordMd5 := passwordMd5 acc; status := SUCCESS;
     createdAt := createdAt acc; errorMessage := errorMessage acc |}.

(** [{ ...acc, status: 'ERROR', errorMessage: msg }] *)
Definition withError (msg : string) (acc : GeneratedAccount) : GeneratedAccount :=
  {| id := id acc; email := email acc; passwordPlain := passwordPlain acc;
     passwordMd5 := passwordMd5 acc; status := ERROR;
     createdAt := createdAt acc; errorMessage := Some msg |}.

(** The updater of lines 73-75. *)
Definition markSuccess (i : string) (prev : list GeneratedAccount) : list GeneratedAccount :=
  map (fun acc => if String.eqb (id acc) i then withSuccess acc else acc) prev.

(** The updater of lines 78-80. *)
Definition markError (i : string) (msg : string) (prev : list GeneratedAccount)
    : list GeneratedAccount :=
  map (fun acc => if String.eqb (id acc) i then withError msg acc else acc) prev.

Definition pressStop (pressed : bool) (st : App) : App :=
  if pressed then stopGeneration st else st.

(** The body of the [for] loop after its stop check (lines 56-86). *)
Definition iteration (t : turn) (st : App) : App :=
  let newAccount := newAccount_of t in
  let st := setAccounts (fun prev => newAccount :: prev) st in
  (* await registerAccount(newAccount) *)
  let st := send (url, payload_of newAccount) st in
  let st := pressStop (t_stop_in_flight t) st in
  let st :=
    match registerAccount newAccount (t_net t) with
    | Return _ => setAccounts (markSuccess (id newAccount)) st
    | Throw e => setAccounts (markError (id newAccount) (message e)) st
    end in
  (* await new Promise(resolve => setTimeout(resolve, 500)) *)
  pressStop (t_stop_in_delay t) st.

(** [for (let i = 0; i < targetCount; i++) { if (shouldStopRef.current)
    break; ... }], with [remaining] the number of values of [i] still
    below [targetCount]. *)
Fixpoint generationLoop (remaining : nat) (i : nat) (turns : nat -> turn)
    (st : App) : App :=
  match remaining with
  | O => st
  | S k =>
      if shouldStopRef st then st
      else generationLoop k (S i) turns (iteration (turns i) st)
  end.

(** [startGeneration] (lines 46-90). *)
Definition startGeneration (turns : nat -> turn) (st : App) : App :=
  if isRunning st then st
  else
    let st := setIsRunning true st in
    let st := setShouldStop false st in
    let st := generationLoop (Z.to_nat (targetCount st)) 0 turns st in
    setIsRunning false st.

(** The number of turns the loop takes: it stops after the first turn
    during which the stop button was pressed. *)
Fixpoint turns_taken (remaining : nat) (i : nat) (turns : nat -> turn) : nat :=
  match remaining with
  | O => O
  | S k =>
      if t_stop_in_flight (turns i) || t_stop_in_delay (turns i) then 1%nat
      else S (turns_taken k (S i) turns)
  end.

(** The record of a turn once its request is settled. *)
Definition settled (t : turn) : GeneratedAccount :=
  match registerAccount (newAccount_of t) (t_net t) with
  | Return _ => withSuccess (newAccount_of t)
  | Throw e => withError (message e) (newAccount_of t)
  end.

(** What the settlement of a turn (lines 71-81) does to the list it
    finds. *)
Definition resolved (t : turn) (prev : list GeneratedAccount) : list GeneratedAccount :=
  match registerAccount (newAccount_of t) (t_net t) with
  | Return _ => markSuccess (t_id t) prev
  | Throw e => markError (t_id t) (message e) prev
  end.

(** The three ways in which a request fails. *)
Definition fetch_failed (net : fetch_outcome) : bool :=
  match net with
  | FetchRejected _ => true
  | FetchResponse _ _ _ => false
  end.

Definition response_not_ok (net : fetch_outcome) : bool :=
  match net with
  | FetchRejected _ => false
  | FetchResponse ok _ _ => negb ok
  end.

Definition body_unparsable (net : fetch_outcome) : bool :=
  match net with
  | FetchResponse _ _ (JsonRejected _) => true
  | _ => false
  end.

(** The request that [registerAccount] sends for a record. *)
Definition request_of (acc : GeneratedAccount) : string * RegistrationPayload :=
  (url, payload_of acc).

(** The text held under the key is the text of the current list. *)
Definition persisted (st : App) : Prop :=
  localStorage st !! storage_key = Some (JSON_stringify (accounts st)).

(** Turns used to exercise the loop: the server answers with an
    application-level refusal, the network fails, the server answers with
    an HTTP error. *)
Definition refused_turn : turn :=
  {| t_email := "kim.lee42@mail.test"; t_password := "S3cretPass";
     t_id := "id-0"; t_createdAt := "2024-05-01T10:00:00.000Z";
     t_net := FetchResponse true 200
                (JsonValue (JsObject [("code", JsNumber 500);
                                      ("msg", JsString "account exists")]));
     t_stop_in_flight := false; t_stop_in_delay := false |}.

Definition offline_turn : turn :=
  {| t_email := "dan.roe17@mail.test"; t_password := "Pa55word!";
     t_id := "id-1"; t_createdAt := "2024-05-01T10:00:01.000Z";
     t_net := FetchRejected {| message := "Failed to fetch" |};
     t_stop_in_flight := true; t_stop_in_delay := false |}.

Definition http_error_turn : turn :=
  {| t_email := "ann.poe03@mail.test"; t_password := "hunter2hunter2";
     t_id := "id-2"; t_createdAt := "2024-05-01T10:00:02.000Z";
     t_net := FetchResponse false 503 (JsonRejected {| message := "" |});
     t_stop_in_flight := false; t_stop_in_delay := false |}.

Definition sample_turns (i : nat) : turn :=
  match i with
  | O => refused_turn
  | S O => offline_turn
  | _ => http_error_turn
  end.

End Bot.

(* ===================================================================== *)
(** ** The machine: loading, the views, and the sign-in screen            *)
(* ===================================================================== *)

Module MachineRest.
Import Machine.

(** An awaited call of the store client either rejects or resolves. *)
Inductive awaited (A : Type) :=
| Rejected
| Resolved (answer : A).
Arguments Rejected {A}.
Arguments Resolved {A} answer.

(** The answer of a select: [{ data, error }]. *)
Record select_result (A : Type) := {
  sel_data : option A;
  sel_error : option string
}.
Arguments sel_data {A} _.
Arguments sel_error {A} _.

(** [loadData] (lines 117-156), against the answers of the two reads and
    of the upsert that creates the first game state.  A rejection of any
    of the awaited calls lands in the [catch] clause, which only logs.
    The reads themselves are not entered in [calls]. *)
Definition loadData
    (accQuery : awaited (select_result (list GeneratedAccount)))
    (stateQuery : awaited (select_result GameState))
    (st : App) : App :=
  match accQuery with
  | Rejected => st
  | Resolved acc =>
      let st :=
        match sel_data acc with
        | Some accData => setAccounts accData st
        | None => st
        end in
      match stateQuery with
      | Rejected => st
      | Resolved state =>
          match sel_data state with
          | Some stateData => setGameState stateData st
          | None =>
              issue (UpsertGameState
                       {| user_id := session_user_id st; current_index := 0;
                          current_level := 1; updated_at := None |}) st
          end
      end
  end.

(** [arr[i]] for a number [i]: [undefined] (here [None]) off the array. *)
Definition at_index {A : Type} (l : list A) (i : Z) : option A :=
  if i <? 0 then None else l !! Z.to_nat i.

(** [accounts[gameState.current_index] || accounts[0]] (line 289). *)
Definition currentAccount (st : App) : option GeneratedAccount :=
  match at_index (accounts st) (current_index (gameState st)) with
  | Some acc => Some acc
  | None => at_index (accounts st) 0
  end.

(** [gameState.current_level > 10] (line 290). *)
Definition isMaxLevel (st : App) : bool :=
  current_level (gameState st) >? 10.

(** What the component shows (lines 251-392): the spinner, the generator
    of an empty machine, the final screen, or the card of the current
    account with the caption "account [number] of [outOf]" and the number
    on the big button. *)
Inductive view :=
| Spinner
| Generator
| Congratulations
| Card (account : option GeneratedAccount) (number outOf : Z).

Definition render (isLoading : bool) (st : App) : view :=
  if isLoading then Spinner
  else if Z.of_nat (length (accounts st)) =? 0 then Generator
  else if isMaxLevel st then Congratulations
  else Card (currentAccount st)
            (current_index (gameState st) + 1)
            (Z.of_nat (length (accounts st))).

(** Presses of the big button, one after the other; each press comes with
    the date it reads. *)
Definition presses (nows : list string) (st : App) : App :=
  fold_left (fun s now => handleNext now s) nows st.

(** The row that the last upsert among the issued calls carried. *)
Fixpoint last_upsert (cs : list remote_call) : option GameState :=
  match cs with
  | [] => None
  | c :: rest =>
      match last_upsert rest with
      | Some row => Some row
      | None =>
          match c with
          | UpsertGameState row => Some row
          | _ => None
          end
      end
  end.

(** The game state on screen is the one last sent to the store, under the
    id of the session. *)
Definition mirrored (st : App) : Prop :=
  forall row,
    last_upsert (calls st) = Some row ->
    user_id row = session_user_id st /\
    current_index row = current_index (gameState st) /\
    current_level row = current_level (gameState st).

(** A list of three accounts as the store returns them. *)
Definition three_rows : list GeneratedAccount :=
  [ {| id := "1"; email := "r1@x.io"; password_plain := "p1"; password_md5 := "";
       created_at := "2024-02-01"; acc_user_id := Some "u" |};
    {| id := "2"; email := "r2@x.io"; password_plain := "p2"; password_md5 := "";
       created_at := "2024-02-02"; acc_user_id := Some "u" |};
    {| id := "3"; email := "r3@x.io"; password_plain := "p3"; password_md5 := "";
       created_at := "2024-02-03"; acc_user_id := Some "u" |} ].

(** The count field (line 266): [setTargetCount(Number(e.target.value))]
    with [x] the number read. *)
Definition setTargetCount (x : Q) (st : App) : App :=
  {| session_user_id := session_user_id st; accounts := accounts st;
     gameState := gameState st; targetCount := x;
     isGenerating := isGenerating st; calls := calls st; alerts := alerts st |}.

(** Two accounts and a pointer past the end, level 2. *)
Definition stale_pointer : App :=
  setGameState
    {| user_id := "u"; current_index := 7; current_level := 2; updated_at := None |}
    (setAccounts two_accounts (initial "u")).

(** The answer of a read that found [found]. *)
Definition found_row {A : Type} (found : A) : awaited (select_result A) :=
  Resolved {| sel_data := Some found; sel_error := None |}.

(** The answer of a read that found nothing. *)
Definition no_row {A : Type} : awaited (select_result A) :=
  Resolved {| sel_data := None; sel_error := None |}.

End MachineRest.

Module Auth.

(** [AuthScreen] of [src/App.tsx] (lines 54-104). *)
Inductive Mode := LOGIN | SIGNUP.

(** The calls made to the authentication client. *)
Inductive auth_call :=
| SignUp (email password : string)
| SignInWithPassword (email password : string).

(** The value that reaches the [catch] clause: the [error] of the answer,
    rethrown, or the reason of a rejection.  Its [message] may be
    missing. *)
Record thrown := { message : option string }.

(** How the awaited call ends: without an error, or with one. *)
Inductive auth_outcome :=
| Succeeded
| Failed (err : thrown).

(** The state of the screen: its [useState] cells, and the alerts and
    calls issued so far. *)
Record Screen := {
  email : string;
  password : string;
  loading : bool;
  error : option string;
  mode : Mode;
  alerts : list string;
  auth_calls : list auth_call
}.

Definition initial : Screen :=
  {| email := ""; password := ""; loading := false; error := None;
     mode := LOGIN; alerts := []; auth_calls := [] |}.

Definition setLoading (b : bool) (s : Screen) : Screen :=
  {| email := email s; password := password s; loading := b; error := error s;
     mode := mode s; alerts := alerts s; auth_calls := auth_calls s |}.

Definition setError (e : option string) (s : Screen) : Screen :=
  {| email := email s; password := password s; loading := loading s; error := e;
     mode := mode s; alerts := alerts s; auth_calls := auth_calls s |}.

Definition setMode (m : Mode) (s : Screen) : Screen :=
  {| email := email s; password := password s; loading := loading s;
     error := error s; mode := m; alerts := alerts s;
     auth_calls := auth_calls s |}.

Definition alert (msg : string) (s : Screen) : Screen :=
  {| email := email s; password := password s; loading := loading s;
     error := error s; mode := mode s; alerts := alerts s ++ [msg];
     auth_calls := auth_calls s |}.

Definition call (c : auth_call) (s : Screen) : Screen :=
  {| email := email s; password := password s; loading := loading s;
     error := error s; mode := mode s; alerts := alerts s;
     auth_calls := auth_calls s ++ [c] |}.

(** [hay.includes(needle)] *)
Fixpoint includes (needle hay : string) : bool :=
  String.prefix needle hay ||
  match hay with
  | EmptyString => false
  | String _ rest => includes needle rest
  end.

Definition unexpected : string := "خطأ غير متوقع".
Definition bad_login : string := "بيانات الدخول غير صحيحة".
Definition not_confirmed : string :=
  "البريد غير مفعل. قم بتعطيل Confirm Email من إعدادات Supabase".

(** The message shown for a caught error (lines 77-79). *)
Definition describe (err : thrown) : string :=
  let msg :=
    match message err with
    | Some m => if String.eqb m "" then unexpected else m
    | None => unexpected
    end in
  let msg := if includes "Invalid login" msg then bad_login else msg in
  let msg := if includes "Email not confirmed" msg then not_confirmed else msg in
  msg.

(** [handleAuth] (lines 61-84), against the outcome of the awaited call. *)
Definition handleAuth (outcome : auth_outcome) (s : Screen) : Screen :=
  let s := setLoading true s in
  let s := setError None s in
  let s :=
    match mode s with
    | SIGNUP =>
        let s := call (SignUp (email s) (password s)) s in
        match outcome with
        | Succeeded => setMode LOGIN (alert "تم إنشاء الحساب بنجاح!" s)
        | Failed err => setError (Some (describe err)) s
        end
    | LOGIN =>
        let s := call (SignInWithPassword (email s) (password s)) s in
        match outcome with
        | Succeeded => s
        | Failed err => setError (Some (describe err)) s
        end
    end in
  setLoading false s.

End Auth.

(* ===================================================================== *)
(** ** The bot: statistics and exports                                    *)
(* ===================================================================== *)

Module BotRest.
Import Bot.



Definition newline : string := String "010"%char EmptyString.

(** [parts.join(sep)] *)
Fixpoint join (sep : string) (parts : list string) : string :=
  match parts with
  | [] => ""
  | [p] => p
  | p :: rest => p ++ sep ++ join sep rest
  end.

(** A file handed to the browser for download. *)
Record download := {
  filename : string;
  mime : string;
  content : string
}.

Definition txt_line (a : GeneratedAccount) : string :=
  email a ++ ":" ++ passwordPlain a.

Definition csv_row (a : GeneratedAccount) : string :=
  email a ++ "," ++ passwordPlain a ++ "," ++ passwordMd5 a ++ "," ++
  createdAt a ++ "," ++ status_text (status a).

Definition csv_header : string := "Email,Password,MD5,Created At,Status" ++ newline.

(** [exportTxt] (lines 155-163); [time] is [new Date().getTime()]. *)
Definition exportTxt (time : Z) (st : App) : download :=
  {| filename := "accounts-" ++ pretty time ++ ".txt";
     mime := "text/plain";
     content := join newline (map txt_line (accounts st)) |}.

(** [exportCsv] (lines 165-176). *)
Definition exportCsv (time : Z) (st : App) : download :=
  {| filename := "accounts-" ++ pretty time ++ ".csv";
     mime := "text/csv";
     content := csv_header ++ join newline (map csv_row (accounts st)) |}.

(** The number of occurrences of a character in a text. *)
Fixpoint count_char (c : ascii) (s : string) : nat :=
  match s with
  | EmptyString => O
  | String x rest => (if Ascii.eqb x c then 1 else 0) + count_char c rest
  end.

(** The free-text fields of a record, those that reach the exports. *)
Definition export_fields (a : GeneratedAccount) : list string :=
  [email a; passwordPlain a; passwordMd5 a; createdAt a].

(** No free-text field of the record contains the character. *)
Definition no_char (c : ascii) (a : GeneratedAccount) : Prop :=
  Forall (fun f => count_char c f = O) (export_fields a).



(** The requests of the turns [i], ..., [i + m - 1], in order. *)
Definition run_requests (turns : nat -> turn) (i m : nat)
    : list (string * RegistrationPayload) :=
  map (fun j => request_of (newAccount_of (turns j))) (seq i m).


(** The state after two turns of the loop on an empty storage. *)
Definition after_two_turns : App :=
  iteration offline_turn (iteration refused_turn (mount ∅)).

End BotRest.

(* ===================================================================== *)
(** ** The bot: clicks and settlements in any order                       *)
(* ===================================================================== *)

Module BotEvents.
Import Bot.

(** [startGeneration] is an [async] function: while it is parked at an
    [await] (the request of line 72, the delay of line 86) the page still
    takes clicks, and whichever button the current render shows can be
    pressed.  Here every parked call of [startGeneration] is a [run], and
    the history of the page is a sequence of events: clicks, a change of
    the count field, and the settlement of the promise a run waits for.
    A run reads the draws and the network answers of its turns from
    [r_turns]; the press fields of a [turn] are not read here, presses
    being events of their own. *)
Inductive phase :=
| InRequest    (* parked at [await registerAccount(newAccount)] *)
| InDelay      (* parked at the [await] of the 500 ms delay *)
| Done.        (* returned *)

Record run := {
  r_turns : nat -> turn;
  r_target : Z;      (* [targetCount] as the closure of the call holds it *)
  r_i : nat;         (* the loop variable [i] *)
  r_phase : phase
}.

Record world := {
  w_app : App;
  w_runs : list run  (* in order of start *)
}.

Inductive event :=
| ClickStart (turns : nat -> turn)
| ClickStop
| ClickDelete (i : string)
| ClickClear (confirmed : bool)
| TypeCount (n : Z)        (* [n] is [parseInt(e.target.value) || 0] *)
| Settle (k : nat).        (* the promise that run [k] awaits settles *)

(** [setTargetCount(parseInt(e.target.value) || 0)] (line 199). *)
Definition setTargetCount (n : Z) (st : App) : App :=
  {| targetCount := n; isRunning := isRunning st; accounts := accounts st;
     shouldStopRef := shouldStopRef st; localStorage := localStorage st;
     requests := requests st |}.

Definition at_phase (p : phase) (r : run) : run :=
  {| r_turns := r_turns r; r_target := r_target r; r_i := r_i r; r_phase := p |}.

Definition next_index (r : run) : run :=
  {| r_turns := r_turns r; r_target := r_target r; r_i := S (r_i r);
     r_phase := r_phase r |}.

(** From the test of the [for] loop to the next [await] (lines 53-72), or
    to the end of the function (line 89). *)
Definition enter_turn (r : run) (app : App) : App * run :=
  if Z.of_nat (r_i r) <? r_target r then
    if shouldStopRef app then (setIsRunning false app, at_phase Done r)
    else
      let newAccount := newAccount_of (r_turns r (r_i r)) in
      let app := setAccounts (fun prev => newAccount :: prev) app in
      let app := send (url, payload_of newAccount) app in
      (app, at_phase InRequest r)
  else (setIsRunning false app, at_phase Done r).

(** What a run does when the promise it awaits settles: after the request,
    lines 73-86 up to the delay; after the delay, [i++] and the loop
    again. *)
Definition resume (r : run) (app : App) : App * run :=
  match r_phase r with
  | InRequest =>
      let newAccount := newAccount_of (r_turns r (r_i r)) in
      let app :=
        match registerAccount newAccount (t_net (r_turns r (r_i r))) with
        | Return _ => setAccounts (markSuccess (id newAccount)) app
        | Throw e => setAccounts (markError (id newAccount) (message e)) app
        end in
      (app, at_phase InDelay r)
  | InDelay => enter_turn (next_index r) app
  | Done => (app, r)
  end.

(** The start button is rendered while [isRunning] is false, the stop
    button while it is true (lines 208-224); the delete button of a
    record while the record is listed (line 357); the clear button while
    the list is not empty (line 251); the count field is disabled while
    [isRunning] is true (line 203). *)
Definition step (w : world) (e : event) : world :=
  match e with
  | ClickStart turns =>
      if isRunning (w_app w) then w
      else
        let app := setShouldStop false (setIsRunning true (w_app w)) in
        let '(app, r) :=
          enter_turn {| r_turns := turns; r_target := targetCount app;
                        r_i := O; r_phase := InRequest |} app in
        {| w_app := app; w_runs := w_runs w ++ [r] |}
  | ClickStop =>
      if isRunning (w_app w)
      then {| w_app := stopGeneration (w_app w); w_runs := w_runs w |}
      else w
  | ClickDelete i =>
      if existsb (fun a => String.eqb (id a) i) (accounts (w_app w))
      then {| w_app := deleteAccount i (w_app w); w_runs := w_runs w |}
      else w
  | ClickClear confirmed =>
      match accounts (w_app w) with
      | [] => w
      | _ => {| w_app := clearAll confirmed (w_app w); w_runs := w_runs w |}
      end
  | TypeCount n =>
      if isRunning (w_app w) then w
      else {| w_app := setTargetCount n (w_app w); w_runs := w_runs w |}
  | Settle k =>
      match w_runs w !! k with
      | Some r =>
          let '(app, r') := resume r (w_app w) in
          {| w_app := app; w_runs := <[k := r']> (w_runs w) |}
      | None => w
      end
  end.

Definition history (events : list event) (w : world) : world :=
  fold_left step events w.

(** A page that has just been opened on the given state. *)
Definition opened (app : App) : world := {| w_app := app; w_runs := [] |}.

(** The number of records a run has created so far. *)
Definition created (r : run) : nat :=
  match r_phase r with
  | Done => r_i r
  | InRequest | InDelay => S (r_i r)
  end.




(** None of the turns comes with a press of the stop button. *)
Definition unpressed (turns : nat -> turn) : Prop :=
  forall j, t_stop_in_flight (turns j) = false /\ t_stop_in_delay (turns j) = false.

(** The turns of a run whose every request is refused by the network;
    the ids carry the tag of the run. *)
Definition tagged (tag : string) (j : nat) : turn :=
  {| t_email := tag ++ pretty j ++ "@mail.test";
     t_password := "pw-" ++ tag ++ pretty j;
     t_id := tag ++ pretty j;
     t_createdAt := "2024-06-01T09:00:00.000Z";
     t_net := FetchRejected {| message := "Failed to fetch" |};
     t_stop_in_flight := false; t_stop_in_delay := false |}.

(** Turns whose requests are all accepted. *)
Definition calm (j : nat) : turn :=
  {| t_email := "calm" ++ pretty j ++ "@mail.test"; t_password := "pw";
     t_id := "calm" ++ pretty j; t_createdAt := "2024-06-02T09:00:00.000Z";
     t_net := FetchResponse true 200 (JsonValue JsNull);
     t_stop_in_flight := false; t_stop_in_delay := false |}.

(** A page opened on an empty storage, with 3 typed into the count
    field. *)
Definition three_wanted : world :=
  history [TypeCount 3] (opened (mount ∅)).

(** Start, then stop while the first request is under way, then let the
    run go on. *)
Definition stopped_history : list event :=
  [ClickStart (tagged "a"); ClickStop; Settle 0; Settle 0].

(** The same with a second start right after the stop. *)
Definition restarted_history : list event :=
  [ClickStart (tagged "a"); ClickStop; ClickStart (tagged "b");
   Settle 0; Settle 0; Settle 0; Settle 0; Settle 0; Settle 0].

End BotEvents.

(* ===================================================================== *)
(** * Properties                                                          *)
(* ===================================================================== *)

(** ** The digest *)

Module CryptoSpec.
Import Crypto.

Lemma hex_digit_lower (n : Z) :
  0 <= n < 16 -> is_lower_hex (hex_digit n) = true.
Proof.
  intros Hn. unfold hex_digit.
  assert (Hk : (Z.to_nat n < 16)%nat) by lia.
  revert Hk. generalize (Z.to_nat n). intros k Hk.
  do 16 (destruct k as [| k]; [reflexivity |]).
  lia.
Qed.

Lemma hex_of_byte_lower (b : Z) :
  Forall (fun c => is_lower_hex c = true) (hex_of_byte b).
Proof.
  unfold hex_of_byte.
  repeat constructor; apply hex_digit_lower; apply Z.mod_pos_bound; lia.
Qed.

Lemma hex_of_word_length (w : Z) : length (hex_of_word w) = 8%nat.
Proof. reflexivity. Qed.

Lemma hex_of_word_lower (w : Z) :
  Forall (fun c => is_lower_hex c = true) (hex_of_word w).
Proof.
  unfold hex_of_word. generalize (le_bytes 4 w). intros l.
  induction l as [| b l IH]; cbn [flat_map].
  - constructor.
  - apply Forall_app. split; [apply hex_of_byte_lower | exact IH].
Qed.

Lemma length_string_of_list (l : list ascii) :
  String.length (string_of_list_ascii l) = length l.
Proof. induction l as [| c l IH]; simpl; congruence. Qed.

Lemma hex_of_state_length (st : md5_state) :
  String.length (hex_of_state st) = 32%nat.
Proof.
  unfold hex_of_state. rewrite length_string_of_list.
  rewrite !length_app, !hex_of_word_length. reflexivity.
Qed.

Lemma hex_of_state_lower (st : md5_state) :
  Forall (fun c => is_lower_hex c = true)
         (list_ascii_of_string (hex_of_state st)).
Proof.
  unfold hex_of_state. rewrite list_ascii_of_string_of_list_ascii.
  do 3 (apply Forall_app; split; [apply hex_of_word_lower |]).
  apply hex_of_word_lower.
Qed.

(** The padded message is a whole number of 64-byte blocks, so the block
    loop, given the length of the message as fuel, consumes all of it. *)
Lemma md5_pad_length (msg : list Z) :
  (Z.of_nat (length (md5_pad msg))) mod 64 = 0.
Proof.
  unfold md5_pad. rewrite !length_app, repeat_length. simpl length.
  set (len := Z.of_nat (length msg)).
  assert (H : 0 <= (55 - len) mod 64 < 64) by (apply Z.mod_pos_bound; lia).
  rewrite !Nat2Z.inj_add, Z2Nat.id by lia. fold len.
  replace (len + (Z.of_nat 1 + ((55 - len) mod 64 + Z.of_nat 8)))
    with (64 + (len + (55 - len) mod 64 - 55)) by lia.
  rewrite (Z.mod_eq (55 - len) 64) by lia.
  replace (64 + (len + (55 - len - 64 * ((55 - len) / 64)) - 55))
    with ((1 - (55 - len) / 64) * 64) by lia.
  apply Z.mod_mul. lia.
Qed.

Lemma md5_blocks_fuel (fuel fuel' : nat) (st : md5_state) (data : list Z) :
  (length data <= fuel)%nat -> (length data <= fuel')%nat ->
  md5_blocks fuel st data = md5_blocks fuel' st data.
Proof.
  revert fuel' st data.
  induction fuel as [| k IH]; intros fuel' st data Hle Hle'.
  - destruct data; [destruct fuel'; reflexivity | simpl in Hle; lia].
  - destruct data as [| b data']; [destruct fuel'; reflexivity |].
    destruct fuel' as [| k']; [simpl in Hle'; lia |].
    change (md5_blocks k (md5_block st (firstn 64 (b :: data')))
                       (skipn 64 (b :: data')) =
            md5_blocks k' (md5_block st (firstn 64 (b :: data')))
                       (skipn 64 (b :: data'))).
    assert (Hskip : (length (skipn 64 (b :: data')) <= length data')%nat).
    { rewrite length_skipn. simpl. lia. }
    simpl in Hle, Hle'.
    apply IH; lia.
Qed.

(** C6, as amended: the digest of the empty string and of "abc" are the
    reference vectors the specification quotes; the digest of "password"
    is the reference value [5f4dcc3b5aa765d61d8327deb882cf99]. *)
Theorem digest_md5_vectors :
  digest_md5 "" = "d41d8cd98f00b204e9800998ecf8427e" /\
  digest_md5 "abc" = "900150983cd24fb0d6963f7d28e17f72" /\
  digest_md5 "password" = "5f4dcc3b5aa765d61d8327deb882cf99".
Proof. repeat split; vm_compute; reflexivity. Qed.

(** The three vectors as the specification lists them do not all hold:
    the one given for "password" is not the digest of "password". *)
Lemma digest_md5_vectors_as_listed_fail :
  ~ (digest_md5 "" = "d41d8cd98f00b204e9800998ecf8427e" /\
     digest_md5 "abc" = "900150983cd24fb0d6963f7d28e17f72" /\
     digest_md5 "password" = "5f4dc92d0c0b6e04f0e0e08d5f5f4b75").
Proof.
  intros (_ & _ & H). vm_compute in H. discriminate H.
Qed.

(** C7: for every input string, the digest has exactly 32 characters and
    each of them is one of [0-9a-f]. *)
Theorem digest_md5_shape (s : string) :
  String.length (digest_md5 s) = 32%nat /\
  Forall (fun c => is_lower_hex c = true) (list_ascii_of_string (digest_md5 s)).
Proof.
  unfold digest_md5. split.
  - apply hex_of_state_length.
  - apply hex_of_state_lower.
Qed.

End CryptoSpec.

(** ** The machine *)

Module MachineSpec.
Import Machine.

Lemma accounts_nonempty_length (st : App) :
  accounts st <> [] <-> 0 < Z.of_nat (length (accounts st)).
Proof.
  destruct (accounts st) as [| a l]; simpl; split; intros H;
    try congruence; try lia.
Qed.

(** [handleNext] on a non-empty list, whatever the index. *)
Lemma handleNext_gameState (now : string) (st : App) :
  accounts st <> [] ->
  gameState (handleNext now st) =
    withIndexLevel (gameState st)
      (if current_index (gameState st) + 1 >=? Z.of_nat (length (accounts st))
       then 0 else current_index (gameState st) + 1)
      (if current_index (gameState st) + 1 >=? Z.of_nat (length (accounts st))
       then current_level (gameState st) + 1 else current_level (gameState st)).
Proof.
  intros Hne. apply accounts_nonempty_length in Hne.
  unfold handleNext.
  destruct (Z.eqb_spec (Z.of_nat (length (accounts st))) 0) as [H0 | _]; [lia |].
  destruct (current_index (gameState st) + 1 >=? Z.of_nat (length (accounts st)));
    reflexivity.
Qed.

Lemma handleNext_accounts (now : string) (st : App) :
  accounts (handleNext now st) = accounts st.
Proof.
  unfold handleNext.
  destruct (Z.of_nat (length (accounts st)) =? 0); [reflexivity |].
  destruct (current_index (gameState st) + 1 >=? Z.of_nat (length (accounts st)));
    reflexivity.
Qed.

(** The level never changes except on a wrap, on any state. *)
Lemma handleNext_level_change (now : string) (st : App) :
  current_level (gameState (handleNext now st)) <> current_level (gameState st) ->
  accounts st <> [] /\
  current_index (gameState st) + 1 >= Z.of_nat (length (accounts st)) /\
  current_level (gameState (handleNext now st)) = current_level (gameState st) + 1.
Proof.
  unfold handleNext.
  destruct (Z.eqb_spec (Z.of_nat (length (accounts st))) 0) as [H0 | Hn0].
  - intros H. contradiction H. reflexivity.
  - destruct (Z.geb_spec (current_index (gameState st) + 1)
                         (Z.of_nat (length (accounts st)))) as [Hge | Hlt];
      cbn; intros H.
    + split; [| split; [lia | reflexivity]].
      intros Hnil. rewrite Hnil in Hn0. simpl in Hn0. lia.
    + congruence.
Qed.

(** C1: on a non-empty list of length [n] and an index within it,
    [handleNext] moves to [(index + 1, level)] when [index + 1 < n] and to
    [(0, level + 1)] when [index + 1 >= n]; the level changes in no other
    case.  This is the counter [(index, level, n) -> (index', level')] of
    the design notes. *)
Theorem handleNext_advances (now : string) (st : App) :
  let n := Z.of_nat (length (accounts st)) in
  let index := current_index (gameState st) in
  let level := current_level (gameState st) in
  let st' := handleNext now st in
  accounts st <> [] ->
  0 <= index < n ->
  (index + 1 < n ->
   current_index (gameState st') = index + 1 /\
   current_level (gameState st') = level) /\
  (index + 1 >= n ->
   current_index (gameState st') = 0 /\
   current_level (gameState st') = level + 1) /\
  (current_level (gameState st') <> level -> index + 1 >= n) /\
  (current_index (gameState st'), current_level (gameState st')) =
    step_counter index level n.
Proof.
  intros n index level st' Hne Hidx. subst st'.
  rewrite (handleNext_gameState now st Hne). fold n index level.
  unfold step_counter. cbn [withIndexLevel current_index current_level].
  destruct (Z.geb_spec (index + 1) n) as [Hge | Hlt];
    destruct (Z.ltb_spec (index + 1) n) as [Hlt' | Hge']; try lia.
  - repeat split; intros; try lia.
  - repeat split; intros; try lia.
Qed.

Lemma handleNext_advances_witness :
  current_index (gameState (handleNext "t" at_last_account)) = 0 /\
  current_level (gameState (handleNext "t" at_last_account)) = 4.
Proof.
  assert (Hne : accounts at_last_account <> []) by (cbv; discriminate).
  assert (Hidx : 0 <= current_index (gameState at_last_account)
                 < Z.of_nat (length (accounts at_last_account)))
    by (cbv; split; [discriminate | reflexivity]).
  destruct (handleNext_advances "t" at_last_account Hne Hidx)
    as (_ & Hwrap & _).
  apply Hwrap. cbv. discriminate.
Defined.

(** C8: on an empty account list, [handleNext] returns the state it was
    given: index and level are unchanged and no upsert is issued. *)
Theorem handleNext_empty (now : string) (st : App) :
  accounts st = [] ->
  handleNext now st = st /\
  current_index (gameState (handleNext now st)) = current_index (gameState st) /\
  current_level (gameState (handleNext now st)) = current_level (gameState st) /\
  calls (handleNext now st) = calls st.
Proof.
  intros Hnil.
  assert (H : handleNext now st = st).
  { unfold handleNext. rewrite Hnil. reflexivity. }
  rewrite H. repeat split.
Qed.

Lemma handleNext_empty_witness :
  handleNext "t" (initial "u") = initial "u" /\
  calls (handleNext "t" (initial "u")) = [].
Proof.
  destruct (handleNext_empty "t" (initial "u") eq_refl) as (H1 & _ & _ & H4).
  split; [exact H1 | exact H4].
Defined.

(** On a non-empty list the upsert is issued. *)
Lemma handleNext_nonempty_upserts (now : string) (st : App) :
  accounts st <> [] ->
  exists row, calls (handleNext now st) = calls st ++ [UpsertGameState row].
Proof.
  intros Hne. apply accounts_nonempty_length in Hne.
  unfold handleNext.
  destruct (Z.eqb_spec (Z.of_nat (length (accounts st))) 0) as [H0 | _]; [lia |].
  destruct (current_index (gameState st) + 1 >=? Z.of_nat (length (accounts st)));
    eexists; reflexivity.
Qed.

(** *** The invariant *)

Lemma invariant_handleNext (now : string) (st : App) :
  invariant st -> invariant (handleNext now st).
Proof.
  intros [Hidx Hlvl].
  destruct (accounts st) as [| a l] eqn:Hacc.
  - assert (H : handleNext now st = st).
    { unfold handleNext. rewrite Hacc. reflexivity. }
    rewrite H. split; [rewrite Hacc; congruence | exact Hlvl].
  - assert (Hne : accounts st <> []) by (rewrite Hacc; congruence).
    rewrite <- Hacc in Hidx. specialize (Hidx Hne).
    unfold invariant.
    rewrite handleNext_accounts, (handleNext_gameState now st Hne).
    cbn [withIndexLevel current_index current_level].
    destruct (Z.geb_spec (current_index (gameState st) + 1)
                         (Z.of_nat (length (accounts st)))); split; intros; lia.
Qed.

(** [updateGameState] stores its arguments as they are. *)
Lemma updateGameState_sets (idx lvl : Z) (st : App) :
  current_index (gameState (updateGameState idx lvl st)) = idx /\
  current_level (gameState (updateGameState idx lvl st)) = lvl /\
  accounts (updateGameState idx lvl st) = accounts st.
Proof. repeat split. Qed.

Lemma invariant_updateGameState (idx lvl : Z) (st : App) :
  (accounts st <> [] -> 0 <= idx < Z.of_nat (length (accounts st))) ->
  1 <= lvl ->
  invariant (updateGameState idx lvl st).
Proof. intros Hidx Hlvl. split; [exact Hidx | exact Hlvl]. Qed.

(** Both calls of [updateGameState] in the component pass [(0, 1)]. *)
Lemma invariant_updateGameState_0_1 (st : App) :
  invariant (updateGameState 0 1 st).
Proof.
  apply invariant_updateGameState; [| lia].
  intros Hne. apply accounts_nonempty_length in Hne. lia.
Qed.

Lemma invariant_handleReset (confirmed : bool) (deleteError : option string)
    (st : App) :
  invariant st -> invariant (handleReset confirmed deleteError st).
Proof.
  intros Hinv. unfold handleReset.
  destruct confirmed; [| exact Hinv].
  destruct deleteError as [msg |].
  - exact Hinv.
  - split; cbn; [congruence | lia].
Qed.

Lemma invariant_handleGenerate (draws : nat -> draw) (resp : insert_response)
    (st : App) :
  invariant st -> invariant (handleGenerate draws resp st).
Proof.
  intros [Hidx Hlvl]. unfold handleGenerate.
  destruct (error resp) as [msg |]; [split; assumption |].
  destruct (data resp) as [rows |]; [| split; assumption].
  cbn [setIsGenerating issue accounts setAccounts].
  destruct (Z.eqb_spec (Z.of_nat (length (accounts st))) 0) as [Hlen | Hlen].
  - split; cbn; [| lia].
    intros Hne. destruct (accounts st) as [| a l]; [| simpl in Hlen; lia].
    destruct rows as [| r rows]; [simpl in Hne; congruence |].
    simpl. lia.
  - split; cbn; [| exact Hlvl].
    intros _.
    assert (Hne : accounts st <> []).
    { intros Hnil. rewrite Hnil in Hlen. simpl in Hlen. lia. }
    specialize (Hidx Hne). rewrite length_app. lia.
Qed.

(** C2: every operation of the component that updates the game state
    preserves the invariant [0 <= current_index < length accounts]
    (whenever the list is non-empty) and [current_level >= 1]:
    [handleNext]; [updateGameState], both at the arguments [(0, 1)] that
    every call in the component passes and at any arguments that are
    themselves within the bounds; [handleReset], whatever the dialog and
    the store answer; and [handleGenerate] with its reset after the
    insert, whatever the store answers. *)
Theorem invariant_preserved (st : App) :
  invariant st ->
  (forall now, invariant (handleNext now st)) /\
  invariant (updateGameState 0 1 st) /\
  (forall idx lvl,
     (accounts st <> [] -> 0 <= idx < Z.of_nat (length (accounts st))) ->
     1 <= lvl -> invariant (updateGameState idx lvl st)) /\
  (forall confirmed deleteError,
     invariant (handleReset confirmed deleteError st)) /\
  (forall draws resp, invariant (handleGenerate draws resp st)).
Proof.
  intros Hinv.
  split; [| split; [| split; [| split]]].
  - intros now. apply invariant_handleNext, Hinv.
  - apply invariant_updateGameState_0_1.
  - intros idx lvl Hidx Hlvl. apply invariant_updateGameState; assumption.
  - intros confirmed deleteError. apply invariant_handleReset, Hinv.
  - intros draws resp. apply invariant_handleGenerate, Hinv.
Qed.

Lemma at_last_account_invariant : invariant at_last_account.
Proof.
  split.
  - intros _. cbv. split; [discriminate | reflexivity].
  - cbv. discriminate.
Qed.

Lemma invariant_preserved_witness :
  invariant at_last_account /\
  invariant (handleNext "t" at_last_account) /\
  invariant (handleReset true None at_last_account).
Proof.
  pose proof (invariant_preserved at_last_account at_last_account_invariant)
    as (Hnext & _ & _ & Hreset & _).
  split; [exact at_last_account_invariant |].
  split; [apply Hnext | apply Hreset].
Defined.

End MachineSpec.

(** ** The text of flat records *)

Module JSONSpec.
Import JSON.

Lemma string_app_cons (x : ascii) (a b : string) :
  String.append (String x a) b = String x (String.append a b).
Proof. reflexivity. Qed.

Lemma string_app_assoc (a b c : string) :
  String.append (String.append a b) c = String.append a (String.append b c).
Proof.
  induction a as [| x a IH]; [reflexivity |].
  rewrite !string_app_cons, IH. reflexivity.
Qed.

Lemma string_app_length (a b : string) :
  String.length (String.append a b) = (String.length a + String.length b)%nat.
Proof.
  induction a as [| x a IH]; [reflexivity |].
  rewrite string_app_cons. cbn [String.length]. rewrite IH. reflexivity.
Qed.

(** Reading what [escape] wrote gives the character back. *)
Lemma read_chars_escape (c : ascii) (tail : string) :
  read_chars (String.append (escape c) tail) = push c (read_chars tail).
Proof.
  destruct c as [[] [] [] [] [] [] [] []]; reflexivity.
Qed.

Lemma read_chars_escape_all (s rest : string) :
  read_chars (String.append (escape_all s) (String dquote rest)) = Some (s, rest).
Proof.
  induction s as [| c s IH]; [reflexivity |].
  cbn [escape_all]. rewrite string_app_assoc, read_chars_escape, IH.
  reflexivity.
Qed.

Lemma quote_app (s tail : string) :
  String.append (quote s) tail =
  String dquote (String.append (escape_all s) (String dquote tail)).
Proof.
  unfold quote. rewrite string_app_cons, string_app_assoc. reflexivity.
Qed.

Lemma write_member_app (k v tail : string) :
  String.append (write_member (k, v)) tail =
  String dquote (String.append (escape_all k)
    (String dquote (String ":"
       (String dquote (String.append (escape_all v) (String dquote tail)))))).
Proof.
  unfold write_member. cbn [fst snd].
  rewrite string_app_assoc, quote_app.
  change (String.append ":" (quote v)) with (String ":" (quote v)).
  rewrite string_app_cons, quote_app. reflexivity.
Qed.

(** One member and what follows it. *)
Lemma read_members_step (k : nat) (key val : string) (sep : ascii) (t3 : string) :
  read_members (S k) (String.append (write_member (key, val)) (String sep t3)) =
  if Ascii.eqb sep "}" then Some ([(key, val)], t3)
  else if Ascii.eqb sep "," then
    match read_members k t3 with
    | Some (ms, t4) => Some ((key, val) :: ms, t4)
    | None => None
    end
  else None.
Proof.
  rewrite write_member_app.
  cbn [read_members].
  change (Ascii.eqb dquote dquote) with true. cbv iota.
  rewrite read_chars_escape_all.
  change (Ascii.eqb ":" ":" && Ascii.eqb dquote dquote) with true. cbv iota.
  rewrite read_chars_escape_all. reflexivity.
Qed.

Lemma write_members_cons2 (m m' : string * string) (ms : flat_object) (tail : string) :
  String.append (write_members (m :: m' :: ms)) tail =
  String.append (write_member m)
    (String "," (String.append (write_members (m' :: ms)) tail)).
Proof.
  change (write_members (m :: m' :: ms))
    with (String.append (write_member m)
            (String.append "," (write_members (m' :: ms)))).
  rewrite string_app_assoc. reflexivity.
Qed.

Lemma read_members_write (ms : flat_object) :
  forall (fuel : nat) (rest : string),
    ms <> [] -> (length ms <= fuel)%nat ->
    read_members fuel (String.append (write_members ms) (String "}" rest)) =
    Some (ms, rest).
Proof.
  induction ms as [| [k v] ms IH]; intros fuel rest Hne Hfuel; [congruence |].
  destruct fuel as [| fuel]; [simpl in Hfuel; lia |].
  destruct ms as [| m' ms].
  - change (write_members [(k, v)]) with (write_member (k, v)).
    rewrite read_members_step. reflexivity.
  - rewrite write_members_cons2, read_members_step.
    change (Ascii.eqb "," "}") with false.
    change (Ascii.eqb "," ",") with true. cbv iota.
    rewrite IH; [reflexivity | congruence | simpl in Hfuel |- *; lia].
Qed.

Lemma write_members_head (ms : flat_object) (tail : string) :
  ms <> [] ->
  exists t, String.append (write_members ms) tail = String dquote t.
Proof.
  destruct ms as [| [k v] [| m' ms]]; intros Hne; [congruence | |].
  - change (write_members [(k, v)]) with (write_member (k, v)).
    rewrite write_member_app. eexists. reflexivity.
  - rewrite write_members_cons2, write_member_app. eexists. reflexivity.
Qed.

Lemma write_object_app (ms : flat_object) (rest : string) :
  String.append (write_object ms) rest =
  String "{" (String.append (write_members ms) (String "}" rest)).
Proof.
  unfold write_object.
  change (String.append "{" (String.append (write_members ms) "}"))
    with (String "{" (String.append (write_members ms) "}")).
  rewrite string_app_cons, string_app_assoc. reflexivity.
Qed.

Lemma read_object_write (ms : flat_object) (fuel : nat) (rest : string) :
  (length ms <= fuel)%nat ->
  read_object fuel (String.append (write_object ms) rest) = Some (ms, rest).
Proof.
  intros Hfuel. rewrite write_object_app.
  destruct ms as [| m ms]; [reflexivity |].
  assert (Hne : m :: ms <> []) by congruence.
  destruct (write_members_head (m :: ms) (String "}" rest) Hne) as [t Ht].
  pose proof (read_members_write (m :: ms) fuel rest Hne Hfuel) as Hread.
  rewrite Ht in Hread |- *.
  cbn [read_object].
  change (Ascii.eqb "{" "{") with true.
  change (Ascii.eqb dquote "}") with false. cbv iota.
  exact Hread.
Qed.

(** A text is at least as long as the count of members written in it. *)
Lemma write_member_length (m : string * string) :
  (1 <= String.length (write_member m))%nat.
Proof.
  unfold write_member, quote. rewrite string_app_cons.
  cbn [String.length]. lia.
Qed.

Lemma write_members_length (ms : flat_object) :
  (length ms <= String.length (write_members ms))%nat.
Proof.
  induction ms as [| m ms IH]; [simpl; lia |].
  destruct ms as [| m' ms].
  - change (write_members [m]) with (write_member m).
    pose proof (write_member_length m). simpl. lia.
  - change (write_members (m :: m' :: ms))
      with (String.append (write_member m)
              (String.append "," (write_members (m' :: ms)))).
    rewrite !string_app_length.
    pose proof (write_member_length m).
    cbn [length] in IH |- *. lia.
Qed.

Lemma write_object_length (ms : flat_object) (rest : string) :
  (length ms <= String.length (String.append (write_object ms) rest))%nat.
Proof.
  rewrite write_object_app. cbn [String.length].
  rewrite string_app_length.
  pose proof (write_members_length ms). lia.
Qed.

Lemma read_elements_step (k : nat) (o : flat_object) (sep : ascii) (t1 : string) :
  read_elements (S k) (String.append (write_object o) (String sep t1)) =
  if Ascii.eqb sep "]" then Some ([o], t1)
  else if Ascii.eqb sep "," then
    match read_elements k t1 with
    | Some (os, t2) => Some (o :: os, t2)
    | None => None
    end
  else None.
Proof.
  cbn [read_elements].
  rewrite read_object_write by apply write_object_length.
  reflexivity.
Qed.

Lemma write_elements_cons2 (o o' : flat_object) (os : list flat_object)
    (tail : string) :
  String.append (write_elements (o :: o' :: os)) tail =
  String.append (write_object o)
    (String "," (String.append (write_elements (o' :: os)) tail)).
Proof.
  change (write_elements (o :: o' :: os))
    with (String.append (write_object o)
            (String.append "," (write_elements (o' :: os)))).
  rewrite string_app_assoc. reflexivity.
Qed.

Lemma read_elements_write (os : list flat_object) :
  forall (fuel : nat) (rest : string),
    os <> [] -> (length os <= fuel)%nat ->
    read_elements fuel (String.append (write_elements os) (String "]" rest)) =
    Some (os, rest).
Proof.
  induction os as [| o os IH]; intros fuel rest Hne Hfuel; [congruence |].
  destruct fuel as [| fuel]; [simpl in Hfuel; lia |].
  destruct os as [| o' os].
  - change (write_elements [o]) with (write_object o).
    rewrite read_elements_step. reflexivity.
  - rewrite write_elements_cons2, read_elements_step.
    change (Ascii.eqb "," "]") with false.
    change (Ascii.eqb "," ",") with true. cbv iota.
    rewrite IH; [reflexivity | congruence | simpl in Hfuel |- *; lia].
Qed.

Lemma write_elements_length (os : list flat_object) :
  (length os <= String.length (write_elements os))%nat.
Proof.
  induction os as [| o os IH]; [simpl; lia |].
  assert (Hobj : forall o', (1 <= String.length (write_object o'))%nat).
  { intros o'. unfold write_object.
    change (String.append "{" (String.append (write_members o') "}"))
      with (String "{" (String.append (write_members o') "}")).
    cbn [String.length]. lia. }
  destruct os as [| o' os].
  - change (write_elements [o]) with (write_object o).
    pose proof (Hobj o). simpl. lia.
  - change (write_elements (o :: o' :: os))
      with (String.append (write_object o)
              (String.append "," (write_elements (o' :: os)))).
    rewrite !string_app_length. pose proof (Hobj o).
    cbn [length] in IH |- *. lia.
Qed.

Lemma write_elements_head (os : list flat_object) (tail : string) :
  os <> [] ->
  exists t, String.append (write_elements os) tail = String "{" t.
Proof.
  destruct os as [| o [| o' os]]; intros Hne; [congruence | |].
  - change (write_elements [o]) with (write_object o).
    rewrite write_object_app. eexists. reflexivity.
  - rewrite write_elements_cons2, write_object_app. eexists. reflexivity.
Qed.

(** Reading the text of an array gives the array back. *)
Lemma read_array_write (os : list flat_object) :
  read_array (write_array os) = Some os.
Proof.
  unfold write_array.
  change (String.append "[" (String.append (write_elements os) "]"))
    with (String "[" (String.append (write_elements os) "]")).
  destruct os as [| o os]; [reflexivity |].
  assert (Hne : o :: os <> []) by congruence.
  destruct (write_elements_head (o :: os) "]" Hne) as [t Ht].
  assert (Hlen : (length (o :: os) <=
                  String.length (String.append (write_elements (o :: os)) "]"))%nat).
  { rewrite string_app_length. pose proof (write_elements_length (o :: os)). lia. }
  pose proof (read_elements_write (o :: os) _ "" Hne Hlen) as Hread.
  rewrite Ht in Hread |- *.
  cbn [read_array].
  change (Ascii.eqb "[" "[") with true.
  change (Ascii.eqb "{" "]") with false. cbv iota.
  rewrite Hread. reflexivity.
Qed.

Lemma write_array_not_empty (os : list flat_object) :
  String.eqb (write_array os) "" = false.
Proof. reflexivity. Qed.

End JSONSpec.

(** ** The bot *)

Module BotSpec.
Import Bot.

(** *** Persistence *)

Lemma account_of_members (a : GeneratedAccount) :
  account_of (members_of a) = Some a.
Proof.
  destruct a as [i e pp pm s ca em]. destruct s, em; reflexivity.
Qed.

Lemma accounts_of_members (l : list GeneratedAccount) :
  accounts_of (map members_of l) = Some l.
Proof.
  induction l as [| a l IH]; [reflexivity |].
  cbn [map accounts_of]. rewrite account_of_members, IH. reflexivity.
Qed.

Lemma JSON_parse_stringify (l : list GeneratedAccount) :
  JSON_parse (JSON_stringify l) = Some l.
Proof.
  unfold JSON_parse, JSON_stringify.
  rewrite JSONSpec.read_array_write. apply accounts_of_members.
Qed.

Lemma JSON_stringify_truthy (l : list GeneratedAccount) :
  String.eqb (JSON_stringify l) "" = false.
Proof. apply JSONSpec.write_array_not_empty. Qed.

Lemma saveEffect_persisted (st : App) : persisted (saveEffect st).
Proof. unfold persisted, saveEffect. cbn. apply lookup_insert_eq. Qed.

Lemma setAccounts_persisted (f : list GeneratedAccount -> list GeneratedAccount)
    (st : App) :
  persisted (setAccounts f st).
Proof. apply saveEffect_persisted. Qed.

Lemma mount_saved (l : list GeneratedAccount) (storage : gmap string string) :
  storage !! storage_key = Some (JSON_stringify l) ->
  accounts (mount storage) = l /\ persisted (mount storage).
Proof.
  intros Hsaved. unfold mount, loadEffect.
  cbn [localStorage]. rewrite Hsaved, JSON_stringify_truthy, JSON_parse_stringify.
  split; [reflexivity | apply setAccounts_persisted].
Qed.

Lemma mount_persisted (storage : gmap string string) : persisted (mount storage).
Proof.
  unfold mount.
  destruct (loadEffect _) as [l |].
  - apply setAccounts_persisted.
  - apply saveEffect_persisted.
Qed.

(** *** [registerAccount] *)

Lemma registerAccount_ok_returns (acc : GeneratedAccount) (http_status : Z)
    (data : js_value) :
  registerAccount acc (FetchResponse true http_status (JsonValue data)) = Return tt.
Proof. cbn. destruct (code_refused data); reflexivity. Qed.

Lemma registerAccount_throws_iff (acc : GeneratedAccount) (net : fetch_outcome) :
  (exists e, registerAccount acc net = Throw e) <->
  fetch_failed net || response_not_ok net || body_unparsable net = true.
Proof.
  destruct net as [e | ok http_status body].
  - split; [reflexivity | intros _; exists e; reflexivity].
  - destruct ok.
    + destruct body as [e | data].
      * split; [reflexivity | intros _; exists e; reflexivity].
      * rewrite registerAccount_ok_returns. split.
        -- intros [e He]. discriminate He.
        -- intros H. discriminate H.
    + split; [intros _; destruct body; reflexivity |].
      intros _. eexists. reflexivity.
Qed.

(** *** One turn of the loop *)

Lemma pressStop_accounts (b : bool) (st : App) :
  accounts (pressStop b st) = accounts st.
Proof. destruct b; reflexivity. Qed.

Lemma pressStop_requests (b : bool) (st : App) :
  requests (pressStop b st) = requests st.
Proof. destruct b; reflexivity. Qed.

Lemma pressStop_localStorage (b : bool) (st : App) :
  localStorage (pressStop b st) = localStorage st.
Proof. destruct b; reflexivity. Qed.

Lemma pressStop_shouldStopRef (b : bool) (st : App) :
  shouldStopRef (pressStop b st) = b || shouldStopRef st.
Proof. destruct b; reflexivity. Qed.

Lemma iteration_accounts (t : turn) (st : App) :
  accounts (iteration t st) = resolved t (newAccount_of t :: accounts st).
Proof.
  unfold iteration, resolved. rewrite pressStop_accounts.
  destruct (registerAccount (newAccount_of t) (t_net t)) as [[] | e];
    cbn [setAccounts saveEffect setLocalStorage updateAccounts accounts];
    rewrite pressStop_accounts; reflexivity.
Qed.

Lemma iteration_requests (t : turn) (st : App) :
  requests (iteration t st) = requests st ++ [request_of (newAccount_of t)].
Proof.
  unfold iteration. rewrite pressStop_requests.
  destruct (registerAccount (newAccount_of t) (t_net t)) as [[] | e];
    cbn [setAccounts saveEffect setLocalStorage updateAccounts requests];
    rewrite pressStop_requests; reflexivity.
Qed.

Lemma iteration_shouldStopRef (t : turn) (st : App) :
  shouldStopRef (iteration t st) =
  shouldStopRef st || (t_stop_in_flight t || t_stop_in_delay t).
Proof.
  unfold iteration. rewrite pressStop_shouldStopRef.
  destruct (registerAccount (newAccount_of t) (t_net t)) as [[] | e];
    cbn [setAccounts saveEffect setLocalStorage updateAccounts shouldStopRef];
    rewrite pressStop_shouldStopRef; cbn;
    destruct (shouldStopRef st), (t_stop_in_flight t), (t_stop_in_delay t);
    reflexivity.
Qed.

Lemma iteration_persisted (t : turn) (st : App) : persisted (iteration t st).
Proof.
  unfold iteration, persisted.
  rewrite pressStop_localStorage, pressStop_accounts.
  destruct (registerAccount (newAccount_of t) (t_net t)) as [[] | e];
    apply setAccounts_persisted.
Qed.

Lemma resolved_length (t : turn) (prev : list GeneratedAccount) :
  length (resolved t prev) = length prev.
Proof.
  unfold resolved, markSuccess, markError.
  destruct (registerAccount _ _); apply length_map.
Qed.

Lemma resolved_head (t : turn) (prev : list GeneratedAccount) :
  resolved t (newAccount_of t :: prev) = settled t :: resolved t prev.
Proof.
  unfold resolved, settled, markSuccess, markError.
  destruct (registerAccount _ _); cbn [map newAccount_of id];
    rewrite String.eqb_refl; reflexivity.
Qed.

(** Records with another id are left as they are. *)
Lemma resolved_other (t : turn) (prev : list GeneratedAccount) (j : nat)
    (acc : GeneratedAccount) :
  prev !! j = Some acc -> id acc <> t_id t -> resolved t prev !! j = Some acc.
Proof.
  intros Hj Hid. apply String.eqb_neq in Hid.
  unfold resolved, markSuccess, markError.
  destruct (registerAccount _ _); rewrite list_lookup_fmap, Hj; cbn;
    rewrite Hid; reflexivity.
Qed.

(** Records with the id of the turn keep everything but status and
    error message. *)
Lemma resolved_same (t : turn) (prev : list GeneratedAccount) (j : nat)
    (acc : GeneratedAccount) :
  prev !! j = Some acc -> id acc = t_id t ->
  exists acc',
    resolved t prev !! j = Some acc' /\
    id acc' = id acc /\ email acc' = email acc /\
    passwordPlain acc' = passwordPlain acc /\
    passwordMd5 acc' = passwordMd5 acc /\ createdAt acc' = createdAt acc /\
    ((status acc' = SUCCESS /\ errorMessage acc' = errorMessage acc /\
      registerAccount (newAccount_of t) (t_net t) = Return tt) \/
     (exists e, status acc' = ERROR /\ errorMessage acc' = Some (message e) /\
      registerAccount (newAccount_of t) (t_net t) = Throw e)).
Proof.
  intros Hj Hid. apply String.eqb_eq in Hid.
  unfold resolved, markSuccess, markError.
  destruct (registerAccount (newAccount_of t) (t_net t)) as [[] | e];
    rewrite list_lookup_fmap, Hj; cbn; rewrite Hid;
    eexists; (split; [reflexivity |]); cbn; repeat (split; [reflexivity |]).
  - left. repeat split.
  - right. exists e. repeat split.
Qed.

Lemma resolved_fresh (t : turn) (prev : list GeneratedAccount) :
  t_id t ∉ map id prev -> resolved t prev = prev.
Proof.
  intros Hfresh.
  assert (H : forall (f : GeneratedAccount -> GeneratedAccount),
             map (fun acc => if String.eqb (id acc) (t_id t) then f acc else acc) prev
             = prev).
  { intros f. induction prev as [| a prev IH]; [reflexivity |].
    cbn [map] in Hfresh |- *.
    apply not_elem_of_cons in Hfresh as [Hne Hrest].
    assert (Hneq : String.eqb (id a) (t_id t) = false)
      by (apply String.eqb_neq; congruence).
    rewrite Hneq, (IH Hrest). reflexivity. }
  unfold resolved, markSuccess, markError.
  destruct (registerAccount _ _); apply H.
Qed.


Lemma settled_status (t : turn) :
  (registerAccount (newAccount_of t) (t_net t) = Return tt /\
   status (settled t) = SUCCESS /\ errorMessage (settled t) = None) \/
  (exists e, registerAccount (newAccount_of t) (t_net t) = Throw e /\
   status (settled t) = ERROR /\ errorMessage (settled t) = Some (message e)).
Proof.
  unfold settled.
  destruct (registerAccount (newAccount_of t) (t_net t)) as [[] | e].
  - left. repeat split.
  - right. exists e. repeat split.
Qed.

(** *** The loop *)

Lemma generationLoop_stopped (k i : nat) (turns : nat -> turn) (st : App) :
  shouldStopRef st = true -> generationLoop k i turns st = st.
Proof. intros H. destruct k; [reflexivity |]. cbn. rewrite H. reflexivity. Qed.

Lemma generationLoop_step (k i : nat) (turns : nat -> turn) (st : App) :
  shouldStopRef st = false ->
  generationLoop (S k) i turns st =
  generationLoop k (S i) turns (iteration (turns i) st).
Proof. intros H. cbn. rewrite H. reflexivity. Qed.

Lemma turns_taken_le (k i : nat) (turns : nat -> turn) :
  (turns_taken k i turns <= k)%nat.
Proof.
  revert i. induction k as [| k IH]; intros i; cbn; [lia |].
  destruct (t_stop_in_flight (turns i) || t_stop_in_delay (turns i)); [lia |].
  specialize (IH (S i)). lia.
Qed.

(** The loop takes [j + 1] turns when the button is first pressed during
    turn [i + j], and all of them when it is never pressed. *)
Lemma turns_taken_first_press (turns : nat -> turn) (j : nat) :
  forall (k i : nat),
    (j < k)%nat ->
    (forall j', (j' < j)%nat ->
       t_stop_in_flight (turns (i + j')%nat)
       || t_stop_in_delay (turns (i + j')%nat) = false) ->
    t_stop_in_flight (turns (i + j)%nat)
    || t_stop_in_delay (turns (i + j)%nat) = true ->
    turns_taken k i turns = S j.
Proof.
  induction j as [| j IH]; intros k i Hlt Hbefore Hpress;
    (destruct k as [| k]; [lia |]); cbn [turns_taken].
  - rewrite Nat.add_0_r in Hpress. rewrite Hpress. reflexivity.
  - pose proof (Hbefore O ltac:(lia)) as H0. rewrite Nat.add_0_r in H0.
    rewrite H0. f_equal. apply IH; [lia | |].
    + intros j' Hj'. replace (S i + j')%nat with (i + S j')%nat by lia.
      apply Hbefore. lia.
    + replace (S i + j)%nat with (i + S j)%nat by lia. exact Hpress.
Qed.

Lemma turns_taken_no_press (turns : nat -> turn) (k : nat) :
  forall (i : nat),
    (forall j, (j < k)%nat ->
       t_stop_in_flight (turns (i + j)%nat)
       || t_stop_in_delay (turns (i + j)%nat) = false) ->
    turns_taken k i turns = k.
Proof.
  induction k as [| k IH]; intros i Hnone; [reflexivity |].
  cbn [turns_taken].
  pose proof (Hnone O ltac:(lia)) as H0. rewrite Nat.add_0_r in H0.
  rewrite H0. f_equal. apply IH.
  intros j Hj. replace (S i + j)%nat with (i + S j)%nat by lia.
  apply Hnone. lia.
Qed.

Lemma generationLoop_counts (k : nat) :
  forall (i : nat) (turns : nat -> turn) (st : App),
    shouldStopRef st = false ->
    length (accounts (generationLoop k i turns st)) =
      (length (accounts st) + turns_taken k i turns)%nat /\
    length (requests (generationLoop k i turns st)) =
      (length (requests st) + turns_taken k i turns)%nat.
Proof.
  induction k as [| k IH]; intros i turns st Hgo.
  - cbn. split; lia.
  - rewrite generationLoop_step by exact Hgo. cbn [turns_taken].
    pose proof (iteration_shouldStopRef (turns i) st) as Hflag.
    rewrite Hgo in Hflag. cbn in Hflag.
    assert (Hacc : length (accounts (iteration (turns i) st)) =
                   S (length (accounts st))).
    { rewrite iteration_accounts, resolved_length. reflexivity. }
    assert (Hreq : length (requests (iteration (turns i) st)) =
                   S (length (requests st))).
    { rewrite iteration_requests, length_app. simpl. lia. }
    destruct (t_stop_in_flight (turns i) || t_stop_in_delay (turns i)).
    + rewrite generationLoop_stopped by exact Hflag. split; lia.
    + destruct (IH (S i) turns _ Hflag) as [IHa IHr]. split; lia.
Qed.

Lemma generationLoop_persisted (k : nat) :
  forall (i : nat) (turns : nat -> turn) (st : App),
    persisted st -> persisted (generationLoop k i turns st).
Proof.
  induction k as [| k IH]; intros i turns st Hp; [exact Hp |].
  cbn. destruct (shouldStopRef st); [exact Hp |].
  apply IH, iteration_persisted.
Qed.

(** *** The claims on the bot *)

(** C3: [registerAccount] throws exactly when the fetch fails, the
    response is not ok, or the body does not parse; an ok response that
    parses returns normally whatever it carries, also a [code] that is
    neither 200 nor 0, and the record of that turn is then marked
    SUCCESS. *)
Theorem registerAccount_errors :
  (forall acc net,
     (exists e, registerAccount acc net = Throw e) <->
     fetch_failed net || response_not_ok net || body_unparsable net = true) /\
  (forall acc http_status data,
     registerAccount acc (FetchResponse true http_status (JsonValue data)) =
     Return tt) /\
  (forall t st http_status data n,
     t_net t = FetchResponse true http_status (JsonValue data) ->
     code_of data = Some (JsNumber n) -> n <> 200 -> n <> 0 ->
     code_refused data = true /\
     registerAccount (newAccount_of t) (t_net t) = Return tt /\
     exists rest,
       accounts (iteration t st) = withSuccess (newAccount_of t) :: rest /\
       status (withSuccess (newAccount_of t)) = SUCCESS).
Proof.
  split; [| split].
  - apply registerAccount_throws_iff.
  - apply registerAccount_ok_returns.
  - intros t st http_status data n Hnet Hcode H200 H0.
    split; [| split].
    + unfold code_refused. rewrite Hcode.
      destruct data; try discriminate Hcode. cbn.
      destruct (Z.eqb_spec n 200), (Z.eqb_spec n 0);
        try contradiction; reflexivity.
    + rewrite Hnet. apply registerAccount_ok_returns.
    + exists (resolved t (accounts st)).
      rewrite iteration_accounts, resolved_head. unfold settled.
      rewrite Hnet, registerAccount_ok_returns. split; reflexivity.
Qed.

Lemma registerAccount_errors_witness :
  code_of (JsObject [("code", JsNumber 500); ("msg", JsString "account exists")])
    = Some (JsNumber 500) /\
  registerAccount (newAccount_of refused_turn) (t_net refused_turn) = Return tt /\
  exists rest,
    accounts (iteration refused_turn (mount ∅)) =
      withSuccess (newAccount_of refused_turn) :: rest /\
    status (withSuccess (newAccount_of refused_turn)) = SUCCESS.
Proof.
  destruct registerAccount_errors as (_ & _ & H).
  destruct (H refused_turn (mount ∅) 200
              (JsObject [("code", JsNumber 500); ("msg", JsString "account exists")])
              500 eq_refl eq_refl)
    as (_ & Hret & Hacc); [lia | lia |].
  split; [reflexivity | split; [exact Hret | exact Hacc]].
Defined.

(** C4: when the request of a turn fails, the record of the turn is marked
    ERROR with the message of the failure; the turn has sent exactly one
    request; and the loop goes on with the next index, where, unless the
    stop button was pressed meanwhile, the next record is generated. *)
Theorem failed_request_recorded (turns : nat -> turn) (i : nat) (st : App)
    (e : Error) :
  shouldStopRef st = false ->
  registerAccount (newAccount_of (turns i)) (t_net (turns i)) = Throw e ->
  let st1 := iteration (turns i) st in
  (exists rest,
     accounts st1 = withError (message e) (newAccount_of (turns i)) :: rest /\
     status (withError (message e) (newAccount_of (turns i))) = ERROR /\
     errorMessage (withError (message e) (newAccount_of (turns i))) =
       Some (message e)) /\
  requests st1 = requests st ++ [request_of (newAccount_of (turns i))] /\
  (forall k, generationLoop (S k) i turns st = generationLoop k (S i) turns st1) /\
  (t_stop_in_flight (turns i) || t_stop_in_delay (turns i) = false ->
   forall k,
     generationLoop (S (S k)) i turns st =
       generationLoop k (S (S i)) turns (iteration (turns (S i)) st1) /\
     length (accounts (iteration (turns (S i)) st1)) = S (length (accounts st1)) /\
     exists rest,
       accounts (iteration (turns (S i)) st1) = settled (turns (S i)) :: rest).
Proof.
  intros Hgo Hthrow st1.
  assert (Hacc : accounts st1 =
                 withError (message e) (newAccount_of (turns i))
                 :: resolved (turns i) (accounts st)).
  { unfold st1. rewrite iteration_accounts, resolved_head.
    unfold settled. rewrite Hthrow. reflexivity. }
  split; [| split; [| split]].
  - exists (resolved (turns i) (accounts st)). repeat split. exact Hacc.
  - apply iteration_requests.
  - intros k. apply generationLoop_step, Hgo.
  - intros Hnostop k.
    assert (Hgo1 : shouldStopRef st1 = false).
    { unfold st1. rewrite iteration_shouldStopRef, Hgo, Hnostop. reflexivity. }
    split; [| split].
    + rewrite generationLoop_step by exact Hgo.
      fold st1. rewrite generationLoop_step by exact Hgo1. reflexivity.
    + rewrite iteration_accounts, resolved_length. reflexivity.
    + rewrite iteration_accounts, resolved_head. eexists. reflexivity.
Qed.

Lemma failed_request_recorded_witness :
  shouldStopRef (mount ∅) = false /\
  registerAccount (newAccount_of http_error_turn) (t_net http_error_turn) =
    Throw {| message := "HTTP 503" |} /\
  exists rest,
    accounts (iteration http_error_turn (mount ∅)) =
      withError "HTTP 503" (newAccount_of http_error_turn) :: rest.
Proof.
  assert (Hgo : shouldStopRef (mount ∅) = false) by reflexivity.
  assert (Hthrow : registerAccount (newAccount_of http_error_turn)
                     (t_net http_error_turn) = Throw {| message := "HTTP 503" |})
    by reflexivity.
  split; [exact Hgo | split; [exact Hthrow |]].
  destruct (failed_request_recorded (fun _ => http_error_turn) 0 (mount ∅)
              {| message := "HTTP 503" |} Hgo Hthrow)
    as ((rest & Hacc & _) & _).
  exists rest. exact Hacc.
Defined.

(** A run taken alone, with no other click than presses of the stop
    button while it is under way (the page under clicks in any order is
    the subject of [BotEventsSpec]): the run creates at most [targetCount]
    records (none when [isRunning] is already true), and sends as many
    requests: as many as it takes turns, which is all of them when the
    stop button is never pressed and [i + 1] when it is first pressed
    during turn [i].  A loop that finds the stop flag set ends at once,
    creating nothing; when the button is pressed while the request or the
    delay of a turn is awaited, that turn still runs to its end, its
    record settled. *)
Theorem startGeneration_bounded (turns : nat -> turn) (st : App) :
  let n := Z.to_nat (targetCount st) in
  let st' := startGeneration turns st in
  let created := if isRunning st then O else turns_taken n 0 turns in
  let pressed i := t_stop_in_flight (turns i) || t_stop_in_delay (turns i) in
  ((created <= n)%nat /\
   length (accounts st') = (length (accounts st) + created)%nat /\
   length (requests st') = (length (requests st) + created)%nat) /\
  (0 <= targetCount st -> Z.of_nat created <= targetCount st) /\
  (forall i, (i < n)%nat ->
     (forall j, (j < i)%nat -> pressed j = false) -> pressed i = true ->
     turns_taken n 0 turns = S i) /\
  ((forall j, (j < n)%nat -> pressed j = false) -> turns_taken n 0 turns = n) /\
  (forall k i s, shouldStopRef s = true -> generationLoop k i turns s = s) /\
  (forall k i s,
     shouldStopRef s = false -> pressed i = true ->
     generationLoop (S k) i turns s = iteration (turns i) s /\
     shouldStopRef (iteration (turns i) s) = true /\
     exists rest,
       accounts (iteration (turns i) s) = settled (turns i) :: rest /\
       length rest = length (accounts s)).
Proof.
  intros n st' created pressed.
  assert (Hcreated : (created <= n)%nat).
  { unfold created. destruct (isRunning st); [lia | apply turns_taken_le]. }
  split; [| split; [| split; [| split; [| split]]]].
  - split; [exact Hcreated |].
    unfold st', created, startGeneration.
    destruct (isRunning st); [split; lia |].
    exact (generationLoop_counts n 0 turns
             (setShouldStop false (setIsRunning true st)) eq_refl).
  - intros Hpos. unfold n in Hcreated. lia.
  - intros i Hi Hbefore Hpress.
    apply (turns_taken_first_press turns i n 0%nat Hi); [| exact Hpress].
    intros j' Hj'. apply Hbefore, Hj'.
  - intros Hnone. apply (turns_taken_no_press turns n 0%nat).
    intros j Hj. apply Hnone, Hj.
  - intros k i s. apply generationLoop_stopped.
  - intros k i s Hgo Hpress.
    assert (Hflag : shouldStopRef (iteration (turns i) s) = true).
    { rewrite iteration_shouldStopRef, Hgo. exact Hpress. }
    split; [| split; [exact Hflag |]].
    + rewrite generationLoop_step by exact Hgo.
      apply generationLoop_stopped, Hflag.
    + exists (resolved (turns i) (accounts s)).
      rewrite iteration_accounts, resolved_head, resolved_length.
      split; reflexivity.
Qed.

Lemma startGeneration_bounded_witness :
  0 <= targetCount (mount ∅) /\
  length (accounts (startGeneration sample_turns (mount ∅))) = 2%nat /\
  Z.of_nat 2 <= targetCount (mount ∅).
Proof.
  assert (Hpos : 0 <= targetCount (mount ∅)) by (vm_compute; discriminate).
  destruct (startGeneration_bounded sample_turns (mount ∅))
    as ((_ & Hacc & _) & Hle & _).
  split; [exact Hpos | split].
  - rewrite Hacc. reflexivity.
  - apply (Hle Hpos).
Defined.

(** C9: settling a turn touches the record of that turn and nothing else.
    The turn settles the list it finds, which (nothing else intervening)
    is the earlier list with the new record in front.  In whatever list it
    finds, every record with another id is unchanged; a record with the id
    of the turn keeps its id, email, passwordPlain, passwordMd5 and
    createdAt, and its status becomes SUCCESS (errorMessage untouched) or
    ERROR (errorMessage set to the message of the failure); the record of
    the turn starts as PENDING and ends as one of the two.  When the id is
    fresh, as ids are meant to be, the rest of the list is literally the
    same. *)
Theorem resolution_frame (t : turn) :
  status (newAccount_of t) = PENDING /\
  (forall st,
     accounts (iteration t st) = resolved t (newAccount_of t :: accounts st)) /\
  (forall prev, length (resolved t prev) = length prev) /\
  (forall prev j acc,
     prev !! j = Some acc -> id acc <> id (newAccount_of t) ->
     resolved t prev !! j = Some acc) /\
  (forall prev j acc,
     prev !! j = Some acc -> id acc = id (newAccount_of t) ->
     exists acc',
       resolved t prev !! j = Some acc' /\
       id acc' = id acc /\ email acc' = email acc /\
       passwordPlain acc' = passwordPlain acc /\
       passwordMd5 acc' = passwordMd5 acc /\ createdAt acc' = createdAt acc /\
       ((status acc' = SUCCESS /\ errorMessage acc' = errorMessage acc /\
         registerAccount (newAccount_of t) (t_net t) = Return tt) \/
        (exists e, status acc' = ERROR /\ errorMessage acc' = Some (message e) /\
         registerAccount (newAccount_of t) (t_net t) = Throw e))) /\
  (forall st,
     accounts (iteration t st) !! 0%nat = Some (settled t) /\
     (status (settled t) = SUCCESS \/ status (settled t) = ERROR)) /\
  (forall st,
     id (newAccount_of t) ∉ map id (accounts st) ->
     accounts (iteration t st) = settled t :: accounts st).
Proof.
  split; [reflexivity |].
  split; [apply iteration_accounts |].
  split; [apply resolved_length |].
  split; [| split; [| split]].
  - intros prev j acc Hj Hid. apply resolved_other; assumption.
  - intros prev j acc Hj Hid. apply resolved_same; assumption.
  - intros st. split.
    + rewrite iteration_accounts, resolved_head. reflexivity.
    + destruct (settled_status t) as [(_ & H & _) | (e & _ & H & _)];
        [left | right]; exact H.
  - intros st Hfresh.
    rewrite iteration_accounts, resolved_head, resolved_fresh;
      [reflexivity | exact Hfresh].
Qed.

Lemma resolution_frame_witness :
  (id (newAccount_of offline_turn)
     ∉ map id (accounts (iteration refused_turn (mount ∅)))) /\
  accounts (iteration offline_turn (iteration refused_turn (mount ∅))) =
    [settled offline_turn; settled refused_turn].
Proof.
  assert (Hfresh : id (newAccount_of offline_turn)
                     ∉ map id (accounts (iteration refused_turn (mount ∅)))).
  { intros H. apply list_elem_of_In in H. vm_compute in H.
    destruct H as [H | []]. discriminate H. }
  split; [exact Hfresh |].
  destruct (resolution_frame offline_turn) as (_ & _ & _ & _ & _ & _ & H).
  rewrite (H _ Hfresh). reflexivity.
Defined.

Lemma deleteAccount_persisted (i : string) (st : App) :
  persisted (deleteAccount i st).
Proof. apply setAccounts_persisted. Qed.

Lemma clearAll_persisted (confirmed : bool) (st : App) :
  persisted st -> persisted (clearAll confirmed st).
Proof.
  intros Hp. unfold clearAll. destruct confirmed; [| exact Hp].
  apply saveEffect_persisted.
Qed.

Lemma startGeneration_persisted (turns : nat -> turn) (st : App) :
  persisted st -> persisted (startGeneration turns st).
Proof.
  intros Hp. unfold startGeneration. destruct (isRunning st); [exact Hp |].
  apply (generationLoop_persisted _ _ _ (setShouldStop false (setIsRunning true st))).
  exact Hp.
Qed.

(** C10: persistence is a round trip.  Every change of the list writes its
    JSON text under ['z_autoreg_accounts']; mounting over a storage that
    holds the text of a list restores that very list; hence mounting over
    what any handler left behind gives back the list the handler left. *)
Theorem persistence_round_trip :
  (forall l, JSON_parse (JSON_stringify l) = Some l) /\
  (forall f st,
     localStorage (setAccounts f st) !! storage_key =
     Some (JSON_stringify (accounts (setAccounts f st)))) /\
  (forall l storage,
     accounts (mount (<[storage_key := JSON_stringify l]> storage)) = l) /\
  (forall st, persisted st -> accounts (mount (localStorage st)) = accounts st) /\
  (forall storage, persisted (mount storage)) /\
  (forall t st, persisted (iteration t st)) /\
  (forall i st, persisted (deleteAccount i st)) /\
  (forall confirmed st, persisted st -> persisted (clearAll confirmed st)) /\
  (forall turns st, persisted st -> persisted (startGeneration turns st)).
Proof.
  repeat apply conj.
  - apply JSON_parse_stringify.
  - intros f st. apply setAccounts_persisted.
  - intros l storage. apply mount_saved, lookup_insert_eq.
  - intros st Hp. apply mount_saved, Hp.
  - apply mount_persisted.
  - apply iteration_persisted.
  - apply deleteAccount_persisted.
  - apply clearAll_persisted.
  - apply startGeneration_persisted.
Qed.

Lemma persistence_round_trip_witness :
  persisted (startGeneration sample_turns (mount ∅)) /\
  accounts (mount (localStorage (startGeneration sample_turns (mount ∅)))) =
    [settled offline_turn; settled refused_turn].
Proof.
  destruct persistence_round_trip as (_ & _ & _ & Hload & Hmount & _ & _ & _ & Hrun).
  assert (Hp : persisted (startGeneration sample_turns (mount ∅)))
    by apply Hrun, Hmount.
  split; [exact Hp |].
  rewrite (Hload _ Hp). vm_compute. reflexivity.
Defined.

End BotSpec.

(** ** The machine: sequences of presses, loading and the views *)

Module MachineRestSpec.
Import Machine MachineRest.

Lemma nonempty_length (l : list GeneratedAccount) :
  l <> [] <-> 0 < Z.of_nat (length l).
Proof. destruct l; simpl; split; intros H; try congruence; lia. Qed.

(** One press, on a non-empty list and whatever the pointer. *)
Lemma press_state (now : string) (st : App) :
  accounts st <> [] ->
  let n := Z.of_nat (length (accounts st)) in
  let wraps := current_index (gameState st) + 1 >=? n in
  accounts (handleNext now st) = accounts st /\
  session_user_id (handleNext now st) = session_user_id st /\
  current_index (gameState (handleNext now st)) =
    (if wraps then 0 else current_index (gameState st) + 1) /\
  current_level (gameState (handleNext now st)) =
    (if wraps then current_level (gameState st) + 1
     else current_level (gameState st)) /\
  calls (handleNext now st) =
    calls st ++
    [UpsertGameState
       {| user_id := session_user_id st;
          current_index := if wraps then 0 else current_index (gameState st) + 1;
          current_level := if wraps then current_level (gameState st) + 1
                           else current_level (gameState st);
          updated_at := Some now |}].
Proof.
  intros Hne n wraps. apply nonempty_length in Hne.
  unfold handleNext. fold n.
  destruct (Z.eqb_spec n 0) as [H0 | _]; [lia |].
  fold wraps. destruct wraps; repeat split.
Qed.

Lemma presses_cons (now : string) (nows : list string) (st : App) :
  presses (now :: nows) st = presses nows (handleNext now st).
Proof. reflexivity. Qed.

Lemma presses_state_after (nows : list string) (st : App) :
  let n := Z.of_nat (length (accounts st)) in
  let k := Z.of_nat (length nows) in
  accounts st <> [] ->
  0 <= current_index (gameState st) < n ->
  accounts (presses nows st) = accounts st /\
  current_index (gameState (presses nows st)) =
    (current_index (gameState st) + k) mod n /\
  current_level (gameState (presses nows st)) =
    current_level (gameState st) + (current_index (gameState st) + k) / n /\
  length (calls (presses nows st)) = (length (calls st) + length nows)%nat.
Proof.
  revert st. induction nows as [| now nows IH]; intros st n k Hne Hidx.
  - subst k. cbn [length presses fold_left Z.of_nat].
    rewrite Z.add_0_r, Z.mod_small, Z.div_small by lia.
    repeat split; lia.
  - rewrite presses_cons.
    destruct (press_state now st Hne) as (Hacc & _ & Hi & Hl & Hc).
    fold n in Hi, Hl.
    assert (Hne1 : accounts (handleNext now st) <> []) by (rewrite Hacc; exact Hne).
    assert (Hidx1 : 0 <= current_index (gameState (handleNext now st))
                    < Z.of_nat (length (accounts (handleNext now st)))).
    { rewrite Hacc, Hi. fold n.
      destruct (Z.geb_spec (current_index (gameState st) + 1) n); lia. }
    destruct (IH (handleNext now st) Hne1 Hidx1) as (IHa & IHi & IHl & IHc).
    rewrite Hacc in IHa, IHi, IHl. fold n in IHi, IHl.
    rewrite IHa, IHi, IHl, IHc, Hi, Hl, Hc, length_app.
    subst k. cbn [length]. rewrite Nat2Z.inj_succ.
    set (k' := Z.of_nat (length nows)).
    destruct (Z.geb_spec (current_index (gameState st) + 1) n) as [Hw | Hw].
    + assert (Hn : current_index (gameState st) = n - 1) by lia.
      rewrite Hn.
      replace (n - 1 + Z.succ k') with (k' + 1 * n) by lia.
      rewrite Z_mod_plus_full, Z_div_plus_full by lia.
      rewrite Z.add_0_l.
      repeat split; lia.
    + replace (current_index (gameState st) + Z.succ k')
        with (current_index (gameState st) + 1 + k') by lia.
      repeat split; lia.
Qed.

(** X1: a sequence of [k] presses on [n > 0] accounts, started within the
    bounds, leaves the pointer at [(index + k) mod n] and the level at
    [level + (index + k) / n]; the list is untouched and each press sends
    one call. *)
Theorem presses_closed_form (nows : list string) (st : App) :
  let n := Z.of_nat (length (accounts st)) in
  let k := Z.of_nat (length nows) in
  accounts st <> [] ->
  0 <= current_index (gameState st) < n ->
  accounts (presses nows st) = accounts st /\
  current_index (gameState (presses nows st)) =
    (current_index (gameState st) + k) mod n /\
  current_level (gameState (presses nows st)) =
    current_level (gameState st) + (current_index (gameState st) + k) / n /\
  length (calls (presses nows st)) = (length (calls st) + length nows)%nat.
Proof. exact (presses_state_after nows st). Qed.

Lemma presses_closed_form_witness :
  current_index (gameState (presses ["t1"; "t2"; "t3"] at_last_account)) = 0 /\
  current_level (gameState (presses ["t1"; "t2"; "t3"] at_last_account)) = 5.
Proof.
  assert (Hne : accounts at_last_account <> []) by (cbv; discriminate).
  assert (Hidx : 0 <= current_index (gameState at_last_account)
                 < Z.of_nat (length (accounts at_last_account)))
    by (cbv; split; [discriminate | reflexivity]).
  destruct (presses_closed_form ["t1"; "t2"; "t3"] at_last_account Hne Hidx)
    as (_ & Hi & Hl & _).
  split; [rewrite Hi | rewrite Hl]; reflexivity.
Defined.

(** X2: a press brings any pointer from [-1] upwards back within the
    bounds (at the price of a level when it was at or past the end); a
    pointer below [-1] is only moved one up and stays outside. *)
Theorem press_repairs_pointer (now : string) (st : App) :
  let n := Z.of_nat (length (accounts st)) in
  accounts st <> [] ->
  (-1 <= current_index (gameState st) ->
   0 <= current_index (gameState (handleNext now st)) < n) /\
  (n - 1 <= current_index (gameState st) ->
   current_index (gameState (handleNext now st)) = 0 /\
   current_level (gameState (handleNext now st)) =
     current_level (gameState st) + 1) /\
  (current_index (gameState st) < -1 ->
   current_index (gameState (handleNext now st)) =
     current_index (gameState st) + 1 /\
   current_index (gameState (handleNext now st)) < 0).
Proof.
  intros n Hne.
  destruct (press_state now st Hne) as (_ & _ & Hi & Hl & _).
  fold n in Hi, Hl. rewrite Hi, Hl.
  apply nonempty_length in Hne. fold n in Hne.
  destruct (Z.geb_spec (current_index (gameState st) + 1) n);
    repeat split; intros; lia.
Qed.

Lemma press_repairs_pointer_witness :
  accounts stale_pointer <> [] /\
  current_index (gameState (handleNext "t" stale_pointer)) = 0 /\
  current_level (gameState (handleNext "t" stale_pointer)) = 3.
Proof.
  assert (Hne : accounts stale_pointer <> []) by (cbv; discriminate).
  destruct (press_repairs_pointer "t" stale_pointer Hne) as (_ & Hwrap & _).
  split; [exact Hne |]. apply Hwrap. cbv. discriminate.
Defined.

(** *** What was last sent to the store *)

Lemma last_upsert_app_upsert (cs : list remote_call) (row : GameState) :
  last_upsert (cs ++ [UpsertGameState row]) = Some row.
Proof.
  induction cs as [| c cs IH]; [reflexivity |].
  cbn [app last_upsert]. rewrite IH. reflexivity.
Qed.

Lemma last_upsert_app_other (cs : list remote_call) (c : remote_call) :
  (forall row, c <> UpsertGameState row) ->
  last_upsert (cs ++ [c]) = last_upsert cs.
Proof.
  intros Hc. induction cs as [| c' cs IH].
  - destruct c; try reflexivity. exfalso. eapply Hc. reflexivity.
  - cbn [app last_upsert]. rewrite IH. reflexivity.
Qed.

Lemma mirrored_updateGameState (idx lvl : Z) (st : App) :
  mirrored (updateGameState idx lvl st).
Proof.
  intros row Hrow. unfold updateGameState in Hrow. cbn in Hrow.
  rewrite last_upsert_app_upsert in Hrow. injection Hrow as <-.
  repeat split.
Qed.

Lemma mirrored_handleNext (now : string) (st : App) :
  mirrored st -> mirrored (handleNext now st).
Proof.
  intros Hm.
  destruct (accounts st) as [| a l] eqn:Hacc.
  - assert (H : handleNext now st = st).
    { unfold handleNext. rewrite Hacc. reflexivity. }
    rewrite H. exact Hm.
  - assert (Hne : accounts st <> []) by (rewrite Hacc; discriminate).
    destruct (press_state now st Hne) as (_ & Hu & Hi & Hl & Hc).
    intros row Hrow. rewrite Hc, last_upsert_app_upsert in Hrow.
    injection Hrow as <-. rewrite Hu, Hi, Hl. repeat split.
Qed.

Lemma mirrored_handleReset (confirmed : bool) (deleteError : option string)
    (st : App) :
  mirrored st -> mirrored (handleReset confirmed deleteError st).
Proof.
  intros Hm. unfold handleReset.
  destruct confirmed; [| exact Hm].
  destruct deleteError as [msg |].
  - intros row Hrow. cbn in Hrow.
    rewrite last_upsert_app_other in Hrow by discriminate.
    apply (Hm row Hrow).
  - intros row Hrow. cbn in Hrow.
    rewrite last_upsert_app_upsert in Hrow. injection Hrow as <-.
    repeat split.
Qed.

Lemma mirrored_handleGenerate (draws : nat -> draw) (resp : insert_response)
    (st : App) :
  mirrored st -> mirrored (handleGenerate draws resp st).
Proof.
  intros Hm. unfold handleGenerate.
  destruct (error resp) as [msg |];
    [| destruct (data resp) as [rows |];
       [destruct (Z.of_nat (length (accounts st)) =? 0) |]];
    intros row Hrow; cbn in Hrow.
  - rewrite last_upsert_app_other in Hrow by discriminate. apply (Hm row Hrow).
  - rewrite last_upsert_app_upsert in Hrow. injection Hrow as <-.
    repeat split.
  - rewrite last_upsert_app_other in Hrow by discriminate. apply (Hm row Hrow).
  - rewrite last_upsert_app_other in Hrow by discriminate. apply (Hm row Hrow).
Qed.

Lemma mirrored_loadData_initial (uid : string)
    (accQuery : awaited (select_result (list GeneratedAccount)))
    (stateQuery : awaited (select_result GameState)) :
  mirrored (loadData accQuery stateQuery (initial uid)).
Proof.
  unfold loadData.
  destruct accQuery as [| acc]; [intros row Hrow; discriminate Hrow |].
  destruct (sel_data acc) as [accData |];
    (destruct stateQuery as [| state]; [intros row Hrow; discriminate Hrow |]);
    (destruct (sel_data state) as [stateData |];
       [intros row Hrow; discriminate Hrow |]);
    intros row Hrow; cbn in Hrow; injection Hrow as <-; repeat split.
Qed.

(** X3: the game state on screen is always the one last sent to the
    store: this holds once the data are loaded into a new component,
    whatever the store answered, and every handler keeps it, also on its
    error paths. *)
Theorem game_state_mirrored :
  (forall uid accQuery stateQuery,
     mirrored (loadData accQuery stateQuery (initial uid))) /\
  (forall st, mirrored st ->
     (forall now, mirrored (handleNext now st)) /\
     (forall confirmed deleteError,
        mirrored (handleReset confirmed deleteError st)) /\
     (forall draws resp, mirrored (handleGenerate draws resp st))) /\
  (forall idx lvl st, mirrored (updateGameState idx lvl st)).
Proof.
  split; [| split].
  - apply mirrored_loadData_initial.
  - intros st Hm. split; [| split].
    + intros now. apply mirrored_handleNext, Hm.
    + intros confirmed deleteError. apply mirrored_handleReset, Hm.
    + intros draws resp. apply mirrored_handleGenerate, Hm.
  - apply mirrored_updateGameState.
Qed.

Lemma game_state_mirrored_witness :
  mirrored (loadData (found_row three_rows) no_row (initial "u")) /\
  mirrored (handleNext "t" (loadData (found_row three_rows) no_row (initial "u"))) /\
  last_upsert
    (calls (handleNext "t" (loadData (found_row three_rows) no_row (initial "u"))))
  = Some {| user_id := "u"; current_index := 1; current_level := 1;
            updated_at := Some "t" |}.
Proof.
  destruct game_state_mirrored as (Hload & Hkeep & _).
  pose proof (Hload "u" (found_row three_rows) no_row) as Hm.
  destruct (Hkeep _ Hm) as (Hnext & _).
  split; [exact Hm | split; [apply Hnext | reflexivity]].
Defined.

(** *** The card *)

Lemma at_index_in_range (l : list GeneratedAccount) (i : Z) :
  0 <= i < Z.of_nat (length l) ->
  exists a, at_index l i = Some a /\ l !! Z.to_nat i = Some a.
Proof.
  intros Hi. unfold at_index.
  destruct (Z.ltb_spec i 0) as [Hneg | _]; [lia |].
  destruct (lookup_lt_is_Some_2 l (Z.to_nat i)) as [a Ha]; [lia |].
  exists a. split; exact Ha.
Qed.

Lemma at_index_off_range (l : list GeneratedAccount) (i : Z) :
  i < 0 \/ Z.of_nat (length l) <= i -> at_index l i = None.
Proof.
  intros Hi. unfold at_index.
  destruct (Z.ltb_spec i 0) as [Hneg | Hpos]; [reflexivity |].
  apply lookup_ge_None_2. lia.
Qed.

(** X4: the card always has an account to show.  Within the bounds it is
    the account under the pointer; with the pointer outside it is the
    first account, while the caption still counts from the pointer; and
    no state at all makes the component show a card without account. *)
Theorem card_shows_an_account (st : App) :
  let n := Z.of_nat (length (accounts st)) in
  let index := current_index (gameState st) in
  (accounts st <> [] -> exists a, currentAccount st = Some a) /\
  (0 <= index < n -> currentAccount st = accounts st !! Z.to_nat index) /\
  (accounts st <> [] -> index < 0 \/ n <= index ->
   currentAccount st = head (accounts st)) /\
  (forall isLoading number outOf,
     render isLoading st <> Card None number outOf) /\
  (accounts st <> [] -> current_level (gameState st) <= 10 ->
   render false st = Card (currentAccount st) (index + 1) n).
Proof.
  intros n index.
  assert (Hsome : accounts st <> [] -> exists a, currentAccount st = Some a).
  { intros Hne. unfold currentAccount.
    destruct (at_index (accounts st) (current_index (gameState st))) as [a |];
      [exists a; reflexivity |].
    destruct (accounts st) as [| a l]; [congruence |].
    exists a. reflexivity. }
  split; [exact Hsome |].
  split; [| split; [| split]].
  - intros Hidx.
    destruct (at_index_in_range (accounts st) index Hidx) as (a & Ha & Hl).
    unfold currentAccount. fold index. rewrite Ha, Hl. reflexivity.
  - intros Hne Hoff. unfold currentAccount. fold index.
    rewrite (at_index_off_range (accounts st) index Hoff).
    destruct (accounts st); reflexivity.
  - intros isLoading number outOf. unfold render.
    destruct isLoading; [discriminate |].
    destruct (Z.eqb_spec (Z.of_nat (length (accounts st))) 0) as [H0 | Hn0];
      [discriminate |].
    destruct (isMaxLevel st); [discriminate |].
    assert (Hne : accounts st <> []).
    { intros Hnil. rewrite Hnil in Hn0. simpl in Hn0. lia. }
    destruct (Hsome Hne) as [a Ha]. rewrite Ha. discriminate.
  - intros Hne Hlvl. unfold render, isMaxLevel.
    apply nonempty_length in Hne.
    destruct (Z.eqb_spec (Z.of_nat (length (accounts st))) 0); [lia |].
    destruct (Z.gtb_spec (current_level (gameState st)) 10); [lia |].
    reflexivity.
Qed.

Lemma card_shows_an_account_witness :
  accounts stale_pointer <> [] /\
  render false stale_pointer =
    Card (head two_accounts) 8 2.
Proof.
  assert (Hne : accounts stale_pointer <> []) by (cbv; discriminate).
  destruct (card_shows_an_account stale_pointer) as (_ & _ & Hfirst & _ & Hcard).
  split; [exact Hne |].
  rewrite Hcard; [| exact Hne | cbv; discriminate].
  rewrite Hfirst; [reflexivity | exact Hne |].
  right. cbv. discriminate.
Defined.

(** X5: loading adopts the stored game state as it is.  When the stored
    pointer lies past the loaded accounts, the invariant does not hold
    after loading; the card then shows the first account under a caption
    that counts past the end, and the next press puts the pointer back on
    the first account, one level up, where the invariant holds again. *)
Theorem loadData_adopts_stale_pointer (uid now : string)
    (rows : list GeneratedAccount) (stored : GameState) :
  let st := loadData (found_row rows) (found_row stored) (initial uid) in
  let n := Z.of_nat (length rows) in
  rows <> [] ->
  n <= current_index stored ->
  1 <= current_level stored <= 10 ->
  accounts st = rows /\ gameState st = stored /\ calls st = [] /\
  ~ invariant st /\
  render false st = Card (head rows) (current_index stored + 1) n /\
  n < current_index stored + 1 /\
  invariant (handleNext now st) /\
  current_index (gameState (handleNext now st)) = 0 /\
  current_level (gameState (handleNext now st)) = current_level stored + 1.
Proof.
  intros st n Hne Hpast Hlvl.
  assert (Hacc : accounts st = rows) by reflexivity.
  assert (Hgs : gameState st = stored) by reflexivity.
  assert (Hne' : accounts st <> []) by (rewrite Hacc; exact Hne).
  destruct (press_state now st Hne') as (Hacc1 & _ & Hi & Hl & _).
  rewrite Hacc, Hgs in Hi, Hl. fold n in Hi, Hl.
  destruct (Z.geb_spec (current_index stored + 1) n) as [_ | Hlt]; [| lia].
  split; [exact Hacc | split; [exact Hgs | split; [reflexivity |]]].
  split; [| split; [| split; [| split; [| split]]]].
  - intros [Hidx _]. specialize (Hidx Hne').
    rewrite Hacc, Hgs in Hidx. fold n in Hidx. lia.
  - unfold render, isMaxLevel. rewrite Hacc, Hgs. fold n.
    apply nonempty_length in Hne. fold n in Hne.
    destruct (Z.eqb_spec n 0); [lia |].
    destruct (Z.gtb_spec (current_level stored) 10); [lia |].
    unfold currentAccount. rewrite Hacc, Hgs.
    rewrite at_index_off_range by (right; fold n; lia).
    destruct rows; reflexivity.
  - lia.
  - split.
    + intros _. rewrite Hacc1, Hi, Hacc. fold n.
      apply nonempty_length in Hne. fold n in Hne. lia.
    + rewrite Hl. lia.
  - exact Hi.
  - exact Hl.
Qed.

Lemma loadData_adopts_stale_pointer_witness :
  three_rows <> [] /\
  render false
    (loadData (found_row three_rows)
       (found_row {| user_id := "u"; current_index := 5; current_level := 4;
                     updated_at := None |})
       (initial "u"))
  = Card (head three_rows) 6 3.
Proof.
  assert (Hne : three_rows <> []) by discriminate.
  split; [exact Hne |].
  destruct (loadData_adopts_stale_pointer "u" "t" three_rows
              {| user_id := "u"; current_index := 5; current_level := 4;
                 updated_at := None |} Hne)
    as (_ & _ & _ & _ & Hcard & _).
  - cbv. discriminate.
  - cbv. split; discriminate.
  - exact Hcard.
Defined.

(** *** Reset and generation *)

(** X6: a reset that the user declines does nothing; one whose delete
    fails leaves accounts and game state alone, shows one alert and sends
    no game state to the store; one that succeeds empties the list, puts
    the game back to [(0, 1)], has sent the delete before the game state,
    and brings the generator back on screen. *)
Theorem handleReset_outcomes (st : App) :
  (forall deleteError, handleReset false deleteError st = st) /\
  (forall msg,
     let st' := handleReset true (Some msg) st in
     accounts st' = accounts st /\ gameState st' = gameState st /\
     calls st' = calls st ++ [DeleteAccounts (session_user_id st)] /\
     length (alerts st') = S (length (alerts st))) /\
  (let st' := handleReset true None st in
   accounts st' = [] /\
   current_index (gameState st') = 0 /\ current_level (gameState st') = 1 /\
   user_id (gameState st') = user_id (gameState st) /\
   calls st' =
     calls st ++
     [DeleteAccounts (session_user_id st);
      UpsertGameState {| user_id := session_user_id st; current_index := 0;
                         current_level := 1; updated_at := None |}] /\
   alerts st' = alerts st /\
   render false st' = Generator).
Proof.
  split; [intros deleteError; reflexivity |].
  split.
  - intros msg st'. subst st'. cbn.
    repeat split. rewrite length_app. simpl. lia.
  - cbn. rewrite <- app_assoc. repeat split.
Qed.

Lemma below_count (x : Q) (i : nat) :
  (i < Z.to_nat (Qceiling x))%nat <-> (inject_Z (Z.of_nat i) < x)%Q.
Proof.
  split.
  - intros Hi.
    assert (Hz : (Z.of_nat i <= Qceiling x - 1)%Z) by lia.
    eapply Qle_lt_trans; [| apply Qceiling_lt].
    rewrite <- Zle_Qle. exact Hz.
  - intros Hi.
    assert (Hz : (Z.of_nat i < Qceiling x)%Z).
    { rewrite Zlt_Qlt. eapply Qlt_le_trans; [exact Hi | apply Qle_ceiling]. }
    lia.
Qed.

Lemma newAccounts_rows (draws : nat -> draw) (st : App) :
  length (newAccounts draws st) = Z.to_nat (Qceiling (targetCount st)) /\
  Forall (fun row =>
            new_user_id row = session_user_id st /\
            new_password_md5 row = Crypto.md5 (new_password_plain row) /\
            new_status row = "ready")
         (newAccounts draws st).
Proof.
  unfold newAccounts. split.
  - rewrite length_map, length_seq. reflexivity.
  - apply Forall_forall. intros row Hin.
    apply list_elem_of_In, in_map_iff in Hin.
    destruct Hin as (i & <- & _). repeat split.
Qed.

(** X7: [handleGenerate] sends exactly one insert, followed at most by the
    upsert of the reset.  The insert has one row for each of
    [i = 0, 1, 2, ...] below the number in the count field (three rows
    for 2.5, none for a number that is not positive), each for the user
    of the session and with the digest of its own password; and the busy
    flag is down at the end.  When the store answers with an error the
    accounts and the game state are untouched and one alert is shown;
    when it answers with neither rows nor error nothing changes either. *)
Theorem handleGenerate_request_and_errors (draws : nat -> draw)
    (resp : insert_response) (st : App) :
  let st' := handleGenerate draws resp st in
  isGenerating st' = false /\
  (exists later,
     calls st' = calls st ++ InsertAccounts (newAccounts draws st) :: later /\
     (later = [] \/
      later = [UpsertGameState
                 {| user_id := session_user_id st; current_index := 0;
                    current_level := 1; updated_at := None |}])) /\
  (forall i : nat,
     (i < length (newAccounts draws st))%nat <->
     (inject_Z (Z.of_nat i) < targetCount st)%Q) /\
  Forall (fun row =>
            new_user_id row = session_user_id st /\
            new_password_md5 row = Crypto.md5 (new_password_plain row) /\
            new_status row = "ready")
         (newAccounts draws st) /\
  (forall msg, error resp = Some msg ->
     accounts st' = accounts st /\ gameState st' = gameState st /\
     length (alerts st') = S (length (alerts st))) /\
  (error resp = None -> data resp = None ->
     accounts st' = accounts st /\ gameState st' = gameState st /\
     alerts st' = alerts st).
Proof.
  intros st'.
  destruct (newAccounts_rows draws st) as [Hlen Hrows].
  split; [reflexivity |].
  split; [| split; [| split; [exact Hrows | split]]].
  - subst st'. unfold handleGenerate.
    destruct (error resp) as [msg |];
      [| destruct (data resp) as [rows |];
         [destruct (Z.of_nat (length (accounts st)) =? 0) |]];
      cbn; try (exists []; split; [reflexivity | left; reflexivity]).
    eexists. rewrite <- app_assoc. split; [reflexivity | right; reflexivity].
  - intros i. rewrite Hlen. apply below_count.
  - intros msg Herr. subst st'. unfold handleGenerate. rewrite Herr. cbn.
    repeat split. rewrite length_app. simpl. lia.
  - intros Herr Hdata. subst st'. unfold handleGenerate.
    rewrite Herr, Hdata. repeat split.
Qed.

Lemma handleGenerate_request_and_errors_witness :
  error {| data := None; error := Some "permission denied" |}
    = Some "permission denied" /\
  length (newAccounts (fun _ => {| drawn_password := "pw"; drawn_email := "e@x.io";
                                   drawn_date := "2024-03-01" |})
            (setTargetCount (5 # 2) (initial "u"))) = 3%nat /\
  accounts
    (handleGenerate (fun _ => {| drawn_password := "pw"; drawn_email := "e@x.io";
                                 drawn_date := "2024-03-01" |})
       {| data := None; error := Some "permission denied" |} at_last_account)
  = two_accounts.
Proof.
  split; [reflexivity | split; [reflexivity |]].
  destruct (handleGenerate_request_and_errors
              (fun _ => {| drawn_password := "pw"; drawn_email := "e@x.io";
                           drawn_date := "2024-03-01" |})
              {| data := None; error := Some "permission denied" |}
              at_last_account)
    as (_ & _ & _ & _ & Herr & _).
  destruct (Herr "permission denied" eq_refl) as (Hacc & _).
  rewrite Hacc. reflexivity.
Defined.

Lemma handleGenerate_fills_empty (draws : nat -> draw)
    (rows : list GeneratedAccount) (st : App) :
  accounts st = [] ->
  accounts (handleGenerate draws {| data := Some rows; error := None |} st) = rows /\
  current_index
    (gameState (handleGenerate draws {| data := Some rows; error := None |} st)) = 0 /\
  current_level
    (gameState (handleGenerate draws {| data := Some rows; error := None |} st)) = 1.
Proof.
  intros Hnil. unfold handleGenerate. cbn. rewrite Hnil. cbn. repeat split.
Qed.

(** X8: a generation into an empty machine followed by [k] presses shows
    the account number [k mod n] of the [n] rows the store returned, at
    level [1 + k / n]; the final screen replaces the card exactly from the
    press number [10 * n] on. *)
Theorem generate_then_presses (draws : nat -> draw)
    (rows : list GeneratedAccount) (nows : list string) (st : App) :
  let n := Z.of_nat (length rows) in
  let k := Z.of_nat (length nows) in
  let st' :=
    presses nows
      (handleGenerate draws {| data := Some rows; error := None |} st) in
  accounts st = [] ->
  rows <> [] ->
  current_level (gameState st') = 1 + k / n /\
  currentAccount st' = rows !! Z.to_nat (k mod n) /\
  (k < 10 * n ->
   render false st' = Card (rows !! Z.to_nat (k mod n)) (k mod n + 1) n) /\
  (10 * n <= k -> render false st' = Congratulations).
Proof.
  intros n k st' Hnil Hne.
  set (st0 := handleGenerate draws {| data := Some rows; error := None |} st) in *.
  destruct (handleGenerate_fills_empty draws rows st Hnil) as (Hacc0 & Hi0 & Hl0).
  fold st0 in Hacc0, Hi0, Hl0.
  pose proof Hne as Hn. apply nonempty_length in Hn. fold n in Hn.
  assert (Hne0 : accounts st0 <> []) by (rewrite Hacc0; exact Hne).
  assert (Hidx0 : 0 <= current_index (gameState st0)
                  < Z.of_nat (length (accounts st0)))
    by (rewrite Hi0, Hacc0; fold n; lia).
  destruct (presses_state_after nows st0 Hne0 Hidx0) as (Hacc & Hi & Hl & _).
  fold st' in Hacc, Hi, Hl.
  rewrite Hacc0, Hi0 in Hi. rewrite Hacc0, Hi0, Hl0 in Hl.
  rewrite Hacc0 in Hacc. fold n k in Hi, Hl. rewrite Z.add_0_l in Hi, Hl.
  assert (Hmod : 0 <= k mod n < n) by (apply Z.mod_pos_bound; lia).
  assert (Hcur : currentAccount st' = rows !! Z.to_nat (k mod n)).
  { unfold currentAccount. rewrite Hacc, Hi.
    destruct (at_index_in_range rows (k mod n) Hmod) as (a & Ha & Hla).
    rewrite Ha, Hla. reflexivity. }
  split; [exact Hl | split; [exact Hcur | split]].
  - intros Hk. unfold render, isMaxLevel. rewrite Hacc, Hl, Hi, Hcur. fold n.
    destruct (Z.eqb_spec n 0); [lia |].
    assert (Hdiv : k / n < 10) by (apply Z.div_lt_upper_bound; lia).
    destruct (Z.gtb_spec (1 + k / n) 10); [lia |]. reflexivity.
  - intros Hk. unfold render, isMaxLevel. rewrite Hacc, Hl. fold n.
    destruct (Z.eqb_spec n 0); [lia |].
    assert (Hdiv : 10 <= k / n) by (apply Z.div_le_lower_bound; lia).
    destruct (Z.gtb_spec (1 + k / n) 10); [reflexivity | lia].
Qed.

Lemma generate_then_presses_witness :
  accounts (initial "u") = [] /\ three_rows <> [] /\
  render false
    (presses ["t1"; "t2"; "t3"; "t4"]
       (handleGenerate (fun _ => {| drawn_password := "pw"; drawn_email := "e@x.io";
                                    drawn_date := "2024-03-01" |})
          {| data := Some three_rows; error := None |} (initial "u")))
  = Card (three_rows !! 1%nat) 2 3.
Proof.
  assert (Hne : three_rows <> []) by discriminate.
  split; [reflexivity | split; [exact Hne |]].
  destruct (generate_then_presses
              (fun _ => {| drawn_password := "pw"; drawn_email := "e@x.io";
                           drawn_date := "2024-03-01" |})
              three_rows ["t1"; "t2"; "t3"; "t4"] (initial "u") eq_refl Hne)
    as (_ & _ & Hcard & _).
  apply Hcard. cbv. reflexivity.
Defined.

End MachineRestSpec.

(** ** The sign-in screen *)

Module AuthSpec.
Import Auth.

Lemma describe_not_empty (err : thrown) : describe err <> "".
Proof.
  unfold describe.
  set (msg := match message err with
              | Some m => if String.eqb m "" then unexpected else m
              | None => unexpected
              end).
  assert (Hmsg : msg <> "").
  { subst msg. destruct (message err) as [m |]; [| discriminate].
    destruct (String.eqb_spec m ""); [discriminate | assumption]. }
  destruct (includes "Invalid login" msg).
  - change (includes "Email not confirmed" bad_login) with false. discriminate.
  - destruct (includes "Email not confirmed" msg); [discriminate | exact Hmsg].
Qed.

(** X9: after [handleAuth] the spinner is off; an error is on screen
    exactly when the call failed, and then it is never blank, while an
    error left from an earlier attempt is gone after a success; the mode
    changes only on a successful sign-up, which goes to LOGIN after one
    alert; and exactly one call is made, the one of the mode. *)
Theorem handleAuth_outcomes (outcome : auth_outcome) (s : Screen) :
  let s' := handleAuth outcome s in
  loading s' = false /\
  (error s' = None <-> outcome = Succeeded) /\
  (forall err, outcome = Failed err ->
     error s' = Some (describe err) /\ describe err <> "" /\
     mode s' = mode s /\ alerts s' = alerts s) /\
  (outcome = Succeeded ->
     mode s' = LOGIN /\
     length (alerts s') =
       (length (alerts s) + match mode s with SIGNUP => 1 | LOGIN => 0 end)%nat) /\
  auth_calls s' =
    auth_calls s ++
    [match mode s with
     | SIGNUP => SignUp (email s) (password s)
     | LOGIN => SignInWithPassword (email s) (password s)
     end] /\
  email s' = email s /\ password s' = password s.
Proof.
  intros s'. subst s'. unfold handleAuth.
  destruct s as [e p l er m al ac].
  destruct m, outcome as [| err]; cbn;
    (split; [reflexivity |]);
    (split; [split; intros H; (reflexivity || discriminate H) |]);
    (split; [intros err' Herr;
             first [discriminate Herr
                   | injection Herr as <-;
                     repeat split; apply describe_not_empty] |]);
    (split; [intros H; first [discriminate H
                             | split; [reflexivity |];
                               rewrite ?length_app; simpl; lia] |]);
    repeat split.
Qed.

Lemma handleAuth_outcomes_witness :
  error (handleAuth (Failed {| message := Some "Invalid login credentials" |})
           initial) = Some bad_login /\
  mode (handleAuth Succeeded (setMode SIGNUP initial)) = LOGIN.
Proof.
  destruct (handleAuth_outcomes
              (Failed {| message := Some "Invalid login credentials" |}) initial)
    as (_ & _ & Hfail & _).
  destruct (Hfail _ eq_refl) as (Herr & _).
  destruct (handleAuth_outcomes Succeeded (setMode SIGNUP initial))
    as (_ & _ & _ & Hok & _).
  destruct (Hok eq_refl) as (Hmode & _).
  split; [rewrite Herr; reflexivity | exact Hmode].
Defined.

(** X10: the message shown for a failure.  A message that mentions
    "Invalid login" gives the hint on wrong credentials, also when it
    mentions "Email not confirmed" as well; one that mentions only the
    latter gives the hint on confirmation; a missing or empty message
    gives the fallback text; any other message is shown as it is. *)
Theorem describe_cases (err : thrown) :
  (forall m, message err = Some m -> includes "Invalid login" m = true ->
     describe err = bad_login) /\
  (forall m, message err = Some m -> includes "Invalid login" m = false ->
     includes "Email not confirmed" m = true -> describe err = not_confirmed) /\
  (message err = None \/ message err = Some "" -> describe err = unexpected) /\
  (forall m, message err = Some m -> m <> "" ->
     includes "Invalid login" m = false ->
     includes "Email not confirmed" m = false -> describe err = m).
Proof.
  unfold describe. repeat apply conj.
  - intros m Hm Hin. rewrite Hm.
    destruct (String.eqb_spec m "") as [-> | _]; [discriminate Hin |].
    rewrite Hin. reflexivity.
  - intros m Hm Hno Hin. rewrite Hm.
    destruct (String.eqb_spec m "") as [-> | _]; [discriminate Hin |].
    rewrite Hno, Hin. reflexivity.
  - intros [Hm | Hm]; rewrite Hm; reflexivity.
  - intros m Hm Hne Hno1 Hno2. rewrite Hm.
    destruct (String.eqb_spec m "") as [-> | _]; [congruence |].
    rewrite Hno1, Hno2. reflexivity.
Qed.

Lemma describe_cases_witness :
  includes "Invalid login"
    "Invalid login credentials. Email not confirmed" = true /\
  describe {| message := Some "Invalid login credentials. Email not confirmed" |}
    = bad_login.
Proof.
  split; [reflexivity |].
  destruct (describe_cases
              {| message := Some "Invalid login credentials. Email not confirmed" |})
    as (H & _).
  apply (H _ eq_refl). reflexivity.
Defined.

End AuthSpec.

(** ** The bot: whole runs, statistics, deletion and exports *)

Module BotRestSpec.
Import Bot BotRest.

(** *** Whole runs *)







Lemma generationLoop_requests (turns : nat -> turn) (k : nat) :
  forall (i : nat) (st : App),
    shouldStopRef st = false ->
    requests (generationLoop k i turns st) =
      requests st ++ run_requests turns i (turns_taken k i turns).
Proof.
  induction k as [| k IH]; intros i st Hgo.
  - cbn. rewrite app_nil_r. reflexivity.
  - rewrite BotSpec.generationLoop_step by exact Hgo.
    pose proof (BotSpec.iteration_shouldStopRef (turns i) st) as Hflag.
    rewrite Hgo in Hflag. cbn [orb] in Hflag.
    cbn [turns_taken].
    destruct (t_stop_in_flight (turns i) || t_stop_in_delay (turns i)).
    + rewrite BotSpec.generationLoop_stopped by exact Hflag.
      apply BotSpec.iteration_requests.
    + rewrite IH by exact Hflag.
      rewrite BotSpec.iteration_requests, <- app_assoc. reflexivity.
Qed.

(** *** Statistics *)










(** *** Deletion, clearing and reloading *)

Lemma deleteAccount_accounts (i : string) (st : App) :
  accounts (deleteAccount i st) =
  filter (fun a => negb (String.eqb (id a) i)) (accounts st).
Proof. reflexivity. Qed.

Lemma kept_iff (i : string) (a : GeneratedAccount) :
  negb (String.eqb (id a) i) <-> id a <> i.
Proof.
  destruct (String.eqb_spec (id a) i) as [Heq | Hne]; cbn; split.
  - intros [].
  - intros H. contradiction.
  - intros _. exact Hne.
  - intros _. exact I.
Qed.

Lemma filter_absent (i : string) (l : list GeneratedAccount) :
  i ∉ map id l -> filter (fun a => negb (String.eqb (id a) i)) l = l.
Proof.
  induction l as [| a l IH]; intros Habsent; [reflexivity |].
  cbn [map] in Habsent. apply not_elem_of_cons in Habsent as [Hne Hrest].
  rewrite filter_cons_True by (apply kept_iff; congruence).
  rewrite (IH Hrest). reflexivity.
Qed.

Lemma filter_twice (i : string) (l : list GeneratedAccount) :
  filter (fun a => negb (String.eqb (id a) i))
         (filter (fun a => negb (String.eqb (id a) i)) l)
  = filter (fun a => negb (String.eqb (id a) i)) l.
Proof.
  induction l as [| a l IH]; [reflexivity |].
  rewrite filter_cons. destruct (decide _) as [Hk | Hk].
  - rewrite filter_cons_True by exact Hk. rewrite IH. reflexivity.
  - exact IH.
Qed.

Lemma reload_persisted (st : App) :
  persisted st -> accounts (mount (localStorage st)) = accounts st.
Proof. intros Hp. apply (BotSpec.mount_saved _ _ Hp). Qed.

(** X15: deleting by id removes every record with that id and no other,
    keeps the remaining ones in their order, and changes nothing in the
    list when the id is absent; deleting twice is deleting once; and the
    deletion is saved, so that the record is still gone after a reload. *)
Theorem deleteAccount_removes (i : string) (st : App) :
  let st' := deleteAccount i st in
  (forall a, a ∈ accounts st' <-> a ∈ accounts st /\ id a <> i) /\
  (i ∉ map id (accounts st')) /\
  (accounts st' `sublist_of` accounts st) /\
  (i ∉ map id (accounts st) -> accounts st' = accounts st) /\
  deleteAccount i st' = st' /\
  accounts (mount (localStorage st')) = accounts st'.
Proof.
  intros st'.
  assert (Hin : forall a, a ∈ accounts st' <-> a ∈ accounts st /\ id a <> i).
  { intros a. subst st'. rewrite deleteAccount_accounts, list_elem_of_filter.
    rewrite kept_iff. tauto. }
  split; [exact Hin |].
  split; [| split; [| split; [| split]]].
  - intros Hi. apply list_elem_of_fmap in Hi as (a & Hid & Ha).
    apply Hin in Ha as [_ Hne]. congruence.
  - subst st'. rewrite deleteAccount_accounts. apply sublist_filter.
  - intros Habsent. subst st'. rewrite deleteAccount_accounts.
    apply filter_absent, Habsent.
  - subst st'. unfold deleteAccount, setAccounts, saveEffect, updateAccounts,
      setLocalStorage.
    cbn [accounts localStorage targetCount isRunning shouldStopRef requests].
    rewrite filter_twice, insert_insert_eq. reflexivity.
  - apply reload_persisted. subst st'. apply BotSpec.setAccounts_persisted.
Qed.

(** X16: a confirmed clearing empties the list and leaves the text of the
    empty list under the key: the removal of the key is undone by the
    save that follows, no other key is touched, and a reload gives the
    empty list; a declined clearing changes nothing. *)
Theorem clearAll_outcomes (st : App) :
  clearAll false st = st /\
  accounts (clearAll true st) = [] /\
  localStorage (clearAll true st) !! storage_key = Some "[]" /\
  (forall k, k <> storage_key ->
     localStorage (clearAll true st) !! k = localStorage st !! k) /\
  accounts (mount (localStorage (clearAll true st))) = [] /\
  requests (clearAll true st) = requests st /\
  shouldStopRef (clearAll true st) = shouldStopRef st.
Proof.
  split; [reflexivity |].
  split; [reflexivity |].
  assert (Hkey : localStorage (clearAll true st) !! storage_key = Some "[]").
  { unfold clearAll, saveEffect, setLocalStorage, updateAccounts.
    cbn [localStorage accounts]. rewrite lookup_insert_eq. reflexivity. }
  split; [exact Hkey |].
  split; [| split; [| split; reflexivity]].
  - intros k Hk. unfold clearAll, saveEffect, setLocalStorage, updateAccounts.
    cbn [localStorage accounts].
    rewrite lookup_insert_ne by congruence.
    rewrite lookup_delete_ne by congruence. reflexivity.
  - apply (BotSpec.mount_saved [] _ Hkey).
Qed.

Lemma mount_over_own_text (l : list GeneratedAccount)
    (storage : gmap string string) :
  storage !! storage_key = Some (JSON_stringify l) ->
  accounts (mount storage) = l /\ localStorage (mount storage) = storage.
Proof.
  intros Hown. unfold mount, loadEffect. cbn [localStorage].
  rewrite Hown, BotSpec.JSON_stringify_truthy, BotSpec.JSON_parse_stringify.
  unfold setAccounts, saveEffect, updateAccounts, setLocalStorage.
  cbn [accounts localStorage].
  split; [reflexivity |].
  rewrite insert_insert_eq. apply insert_id, Hown.
Qed.

(** X17: mounting over a storage without the key, or with an empty text
    under it, starts from the empty list and writes its text under the
    key, changing nothing else; mounting over a storage whose key holds
    the text that the application wrote for a list restores that list and
    leaves the storage exactly as it was; so a second mount changes
    nothing any more. *)
Theorem mount_edges_and_reload (storage : gmap string string) :
  (storage !! storage_key = None \/ storage !! storage_key = Some "" ->
   accounts (mount storage) = [] /\
   localStorage (mount storage) = <[storage_key := "[]"]> storage /\
   accounts (mount (localStorage (mount storage))) = [] /\
   localStorage (mount (localStorage (mount storage))) =
     localStorage (mount storage)) /\
  (forall l, storage !! storage_key = Some (JSON_stringify l) ->
     accounts (mount storage) = l /\ localStorage (mount storage) = storage).
Proof.
  split; [| intros l; apply mount_over_own_text].
  intros Hkey.
  assert (Hfirst : accounts (mount storage) = [] /\
                   localStorage (mount storage) = <[storage_key := "[]"]> storage).
  { unfold mount, loadEffect; cbn [localStorage].
    destruct Hkey as [Hnone | Hempty]; [rewrite Hnone | rewrite Hempty];
      split; reflexivity. }
  destruct Hfirst as [Hacc Hsto].
  assert (Hown : localStorage (mount storage) !! storage_key
                 = Some (JSON_stringify [])).
  { rewrite Hsto. apply lookup_insert_eq. }
  destruct (mount_over_own_text [] _ Hown) as [Hacc2 Hsto2].
  repeat split; assumption.
Qed.

Lemma mount_edges_and_reload_witness :
  (∅ : gmap string string) !! storage_key = None /\
  accounts (mount ∅) = [] /\
  localStorage (mount ∅) !! storage_key = Some "[]".
Proof.
  split; [reflexivity |].
  destruct (mount_edges_and_reload ∅) as (H & _).
  destruct (H (or_introl eq_refl)) as (Hacc & Hsto & _).
  split; [exact Hacc |]. rewrite Hsto. reflexivity.
Defined.

Lemma deleteAccount_removes_witness :
  ("id-9" ∉ map id (accounts after_two_turns)) /\
  accounts (deleteAccount "id-9" after_two_turns) = accounts after_two_turns /\
  accounts (deleteAccount "id-0" after_two_turns) = [settled offline_turn].
Proof.
  assert (Habsent : "id-9" ∉ map id (accounts after_two_turns)).
  { intros H. apply list_elem_of_In in H. vm_compute in H.
    destruct H as [H | [H | []]]; discriminate H. }
  destruct (deleteAccount_removes "id-9" after_two_turns)
    as (_ & _ & _ & Hsame & _).
  split; [exact Habsent | split; [exact (Hsame Habsent) | reflexivity]].
Defined.

Lemma clearAll_outcomes_witness :
  "theme" <> storage_key /\
  localStorage (clearAll true (setLocalStorage {["theme" := "dark"]} after_two_turns))
    !! "theme" = Some "dark".
Proof.
  assert (Hk : "theme" <> storage_key) by discriminate.
  split; [exact Hk |].
  destruct (clearAll_outcomes (setLocalStorage {["theme" := "dark"]} after_two_turns))
    as (_ & _ & _ & Hother & _).
  rewrite (Hother "theme" Hk). reflexivity.
Defined.

(** *** Exports *)

Lemma count_char_app (c : ascii) (a b : string) :
  count_char c (String.append a b) = (count_char c a + count_char c b)%nat.
Proof.
  induction a as [| x a IH]; [reflexivity |].
  rewrite JSONSpec.string_app_cons. cbn [count_char]. rewrite IH. lia.
Qed.

Lemma status_text_plain (s : Status) :
  count_char "010" (status_text s) = O /\ count_char "," (status_text s) = O.
Proof. destruct s; split; reflexivity. Qed.

Lemma join_newlines (parts : list string) :
  parts <> [] ->
  Forall (fun p => count_char "010" p = O) parts ->
  S (count_char "010" (join newline parts)) = length parts.
Proof.
  induction parts as [| p parts IH]; intros Hne Hall; [congruence |].
  apply Forall_cons in Hall as [Hp Hrest].
  destruct parts as [| q parts].
  - cbn [join length]. rewrite Hp. reflexivity.
  - change (join newline (p :: q :: parts))
      with (String.append p (String.append newline (join newline (q :: parts)))).
    rewrite !count_char_app, Hp.
    change (count_char "010" newline) with 1%nat.
    cbn [length] in IH |- *. rewrite <- IH by (congruence || exact Hrest).
    reflexivity.
Qed.

Lemma csv_row_count (c : ascii) (a : GeneratedAccount) :
  count_char c (csv_row a) =
    (count_char c (email a) + count_char c (passwordPlain a) +
     count_char c (passwordMd5 a) + count_char c (createdAt a) +
     count_char c (status_text (status a)) + 4 * count_char c ",")%nat.
Proof.
  unfold csv_row. rewrite !count_char_app. lia.
Qed.

Lemma txt_line_count (c : ascii) (a : GeneratedAccount) :
  count_char c (txt_line a) =
    (count_char c (email a) + count_char c (passwordPlain a) +
     count_char c ":")%nat.
Proof.
  unfold txt_line. rewrite !count_char_app. lia.
Qed.

(** X18: both exports write one line per record: when no field of any
    record contains a line break and the list is not empty, the text file
    has as many lines as there are records, and the CSV file has its
    header line followed by as many lines as there are records. *)
Theorem exports_one_line_per_record (time : Z) (st : App) :
  accounts st <> [] ->
  Forall (no_char "010") (accounts st) ->
  S (count_char "010" (content (exportTxt time st))) = length (accounts st) /\
  count_char "010" (content (exportCsv time st)) = length (accounts st).
Proof.
  intros Hne Hall.
  assert (Htxt : Forall (fun p => count_char "010" p = O)
                        (map txt_line (accounts st))).
  { apply Forall_fmap. eapply Forall_impl; [exact Hall |].
    intros a Ha. cbn. unfold no_char, export_fields in Ha.
    apply Forall_cons in Ha as [He Ha]. apply Forall_cons in Ha as [Hp _].
    rewrite txt_line_count, He, Hp. reflexivity. }
  assert (Hcsv : Forall (fun p => count_char "010" p = O)
                        (map csv_row (accounts st))).
  { apply Forall_fmap. eapply Forall_impl; [exact Hall |].
    intros a Ha. cbn. unfold no_char, export_fields in Ha.
    apply Forall_cons in Ha as [He Ha]. apply Forall_cons in Ha as [Hp Ha].
    apply Forall_cons in Ha as [Hm Ha]. apply Forall_cons in Ha as [Hc _].
    rewrite csv_row_count, He, Hp, Hm, Hc.
    rewrite (proj1 (status_text_plain (status a))). reflexivity. }
  assert (Hne' : forall f : GeneratedAccount -> string,
                   map f (accounts st) <> []).
  { intros f. destruct (accounts st); [congruence | discriminate]. }
  split.
  - cbn [content exportTxt].
    rewrite (join_newlines _ (Hne' txt_line) Htxt). apply length_map.
  - cbn [content exportCsv]. rewrite count_char_app.
    change (count_char "010" csv_header) with 1%nat.
    pose proof (join_newlines _ (Hne' csv_row) Hcsv) as H.
    rewrite length_map in H. cbn [Nat.add]. exact H.
Qed.

Lemma exports_one_line_per_record_witness :
  accounts after_two_turns <> [] /\
  Forall (no_char "010") (accounts after_two_turns) /\
  count_char "010" (content (exportCsv 0 after_two_turns)) = 2%nat.
Proof.
  assert (Hne : accounts after_two_turns <> []) by discriminate.
  assert (Hall : Forall (no_char "010") (accounts after_two_turns)).
  { repeat constructor. }
  split; [exact Hne | split; [exact Hall |]].
  destruct (exports_one_line_per_record 0 after_two_turns Hne Hall)
    as (_ & Hcsv).
  rewrite Hcsv. reflexivity.
Defined.

(** X19: the CSV export does not quote its fields: a row has four commas
    more than its email, password, digest and date contain together, so
    it splits into the five columns of the header exactly when none of
    these fields contains a comma. *)
Theorem csv_row_commas (a : GeneratedAccount) :
  count_char "," (csv_row a) =
    (4 + (count_char "," (email a) + count_char "," (passwordPlain a) +
          count_char "," (passwordMd5 a) + count_char "," (createdAt a)))%nat /\
  (count_char "," (csv_row a) = 4%nat <-> no_char "," a) /\
  count_char "," csv_header = 4%nat.
Proof.
  assert (Hcount :
    count_char "," (csv_row a) =
      (4 + (count_char "," (email a) + count_char "," (passwordPlain a) +
            count_char "," (passwordMd5 a) + count_char "," (createdAt a)))%nat).
  { rewrite csv_row_count.
    rewrite (proj2 (status_text_plain (status a))).
    change (count_char "," ",") with 1%nat. lia. }
  split; [exact Hcount | split; [| reflexivity]].
  rewrite Hcount. unfold no_char, export_fields. split.
  - intros H. repeat constructor; lia.
  - intros H.
    apply Forall_cons in H as [He H]. apply Forall_cons in H as [Hp H].
    apply Forall_cons in H as [Hm H]. apply Forall_cons in H as [Hc _].
    lia.
Qed.

End BotRestSpec.

(** ** The bot under clicks and settlements in any order *)

Module BotEventsSpec.
Import Bot BotEvents.

(** C5 (defect): the stop does not hold when the start button is pressed
    again.  With 3 in the count field, start and then stop while the first
    request is under way: the flag is set and one record is listed.  Left
    alone, the run ends after that record.  But the stop brings the start
    button back, and a second start clears the flag while the first run
    is still parked: the first run then goes on and creates its second
    and third record after the stop. *)
Theorem stop_undone_by_restart :
  let pressed := history [ClickStart (tagged "a"); ClickStop] three_wanted in
  let alone := history stopped_history three_wanted in
  let restarted := history restarted_history three_wanted in
  (shouldStopRef (w_app pressed) = true /\
   isRunning (w_app pressed) = false /\
   map id (accounts (w_app pressed)) = ["a0"]) /\
  (map id (accounts (w_app alone)) = ["a0"] /\
   map (fun r => (r_phase r, created r)) (w_runs alone) = [(Done, 1%nat)]) /\
  (map id (accounts (w_app restarted)) = ["a2"; "a1"; "b0"; "a0"] /\
   map (fun r => (r_phase r, created r)) (w_runs restarted) =
     [(Done, 3%nat); (InRequest, 1%nat)]).
Proof. vm_compute. repeat split. Qed.

(** *** What holds in any order *)










(** X20: the stop flag is looked at when a delay ends and at no other
    moment.  A run whose delay ends while the flag is set returns without
    creating a record or sending a request.  A run whose request settles
    marks its record whatever the flag says: a stop pressed while the
    request is under way does not cancel it.  And when the record has
    been deleted meanwhile, the settlement leaves the list as it is. *)
Theorem stop_seen_between_turns (w : world) (k : nat) (r : run) :
  w_runs w !! k = Some r ->
  let w' := step w (Settle k) in
  (r_phase r = InDelay -> shouldStopRef (w_app w) = true ->
   accounts (w_app w') = accounts (w_app w) /\
   requests (w_app w') = requests (w_app w) /\
   isRunning (w_app w') = false /\
   (exists r', w_runs w' !! k = Some r' /\ r_phase r' = Done /\
               created r' = created r)) /\
  (r_phase r = InRequest ->
   accounts (w_app w') = resolved (r_turns r (r_i r)) (accounts (w_app w)) /\
   requests (w_app w') = requests (w_app w) /\
   shouldStopRef (w_app w') = shouldStopRef (w_app w) /\
   (exists r', w_runs w' !! k = Some r' /\ r_phase r' = InDelay /\
               r_i r' = r_i r) /\
   (t_id (r_turns r (r_i r)) ∉ map id (accounts (w_app w)) ->
    accounts (w_app w') = accounts (w_app w))).
Proof.
  intros Hk w'.
  assert (Hlt : (k < length (w_runs w))%nat) by (eapply lookup_lt_Some; exact Hk).
  split.
  - intros Hph Hflag. subst w'. cbn [step]. rewrite Hk.
    unfold resume. rewrite Hph. unfold enter_turn. rewrite Hflag.
    destruct (Z.of_nat (r_i (next_index r)) <? r_target (next_index r));
      cbn [w_app w_runs];
      (repeat split;
       [exists (at_phase Done (next_index r));
        rewrite list_lookup_insert_eq by exact Hlt;
        repeat split; unfold created; rewrite Hph; reflexivity]).
  - intros Hph. subst w'. cbn [step]. rewrite Hk.
    unfold resume. rewrite Hph. cbn [w_app w_runs].
    assert (Hacc :
      accounts
        match registerAccount (newAccount_of (r_turns r (r_i r)))
                (t_net (r_turns r (r_i r))) with
        | Return _ =>
            setAccounts (markSuccess (id (newAccount_of (r_turns r (r_i r)))))
              (w_app w)
        | Throw e =>
            setAccounts
              (markError (id (newAccount_of (r_turns r (r_i r)))) (message e))
              (w_app w)
        end
      = resolved (r_turns r (r_i r)) (accounts (w_app w))).
    { unfold resolved. destruct (registerAccount _ _); reflexivity. }
    split; [exact Hacc |].
    split; [destruct (registerAccount _ _); reflexivity |].
    split; [destruct (registerAccount _ _); reflexivity |].
    split.
    + exists (at_phase InDelay r).
      rewrite list_lookup_insert_eq by exact Hlt. repeat split.
    + intros Hgone. rewrite Hacc. apply BotSpec.resolved_fresh, Hgone.
Qed.

Lemma stop_seen_between_turns_witness :
  let w := history [ClickStart (tagged "a"); ClickStop; ClickDelete "a0"]
            three_wanted in
  w_runs w !! 0%nat =
    Some {| r_turns := tagged "a"; r_target := 3; r_i := 0; r_phase := InRequest |} /\
  accounts (w_app w) = [] /\
  accounts (w_app (step w (Settle 0))) = [].
Proof.
  intros w.
  assert (Hk : w_runs w !! 0%nat =
    Some {| r_turns := tagged "a"; r_target := 3; r_i := 0; r_phase := InRequest |})
    by reflexivity.
  assert (Hacc : accounts (w_app w) = []) by reflexivity.
  split; [exact Hk | split; [exact Hacc |]].
  destruct (stop_seen_between_turns w 0 _ Hk) as (_ & Hreq).
  destruct (Hreq eq_refl) as (_ & _ & _ & _ & Hgone).
  rewrite Hgone; [exact Hacc |].
  rewrite Hacc. cbn. apply not_elem_of_nil.
Defined.

(** *** A run on its own *)

Lemma iteration_unpressed (t : turn) (app : App) :
  t_stop_in_flight t = false -> t_stop_in_delay t = false ->
  iteration t app =
  match registerAccount (newAccount_of t) (t_net t) with
  | Return _ =>
      setAccounts (markSuccess (id (newAccount_of t)))
        (send (url, payload_of (newAccount_of t))
           (setAccounts (fun prev => newAccount_of t :: prev) app))
  | Throw e =>
      setAccounts (markError (id (newAccount_of t)) (message e))
        (send (url, payload_of (newAccount_of t))
           (setAccounts (fun prev => newAccount_of t :: prev) app))
  end.
Proof.
  intros Hf Hd. unfold iteration. rewrite Hf, Hd. reflexivity.
Qed.

Lemma settle_single (r : run) (app : App) :
  step {| w_app := app; w_runs := [r] |} (Settle 0) =
  {| w_app := fst (resume r app); w_runs := [snd (resume r app)] |}.
Proof.
  cbn [step w_runs w_app]. change ([r] !! 0%nat) with (Some r).
  cbv beta iota.
  destruct (resume r app) as [app' r']. reflexivity.
Qed.

Lemma resume_in_request (turns : nat -> turn) (target : Z) (i : nat) (app : App) :
  t_stop_in_flight (turns i) = false -> t_stop_in_delay (turns i) = false ->
  resume {| r_turns := turns; r_target := target; r_i := i; r_phase := InRequest |}
         (send (url, payload_of (newAccount_of (turns i)))
            (setAccounts (fun prev => newAccount_of (turns i) :: prev) app))
  = (iteration (turns i) app,
     {| r_turns := turns; r_target := target; r_i := i; r_phase := InDelay |}).
Proof.
  intros Hf Hd. rewrite (iteration_unpressed (turns i) app Hf Hd).
  unfold resume. cbn [r_phase r_turns r_i].
  destruct (registerAccount (newAccount_of (turns i)) (t_net (turns i)));
    reflexivity.
Qed.

Lemma alone_from (turns : nat -> turn) (target : Z) (k : nat) :
  forall (i : nat) (app : App) (p : phase),
    unpressed turns ->
    shouldStopRef app = false ->
    target = Z.of_nat (i + k) ->
    let entered :=
      enter_turn {| r_turns := turns; r_target := target; r_i := i;
                    r_phase := p |} app in
    w_app (history (repeat (Settle 0) (2 * k))
             {| w_app := fst entered; w_runs := [snd entered] |})
    = setIsRunning false (generationLoop k i turns app).
Proof.
  induction k as [| k IH]; intros i app p Hun Hgo Htarget entered.
  - subst entered. unfold enter_turn. cbn [r_i r_target].
    destruct (Z.ltb_spec (Z.of_nat i) target); [lia |]. reflexivity.
  - subst entered. unfold enter_turn. cbn [r_i r_target r_turns].
    destruct (Z.ltb_spec (Z.of_nat i) target) as [_ | Hge]; [| lia].
    rewrite Hgo. cbn [fst snd].
    replace (2 * S k)%nat with (S (S (2 * k))) by lia.
    cbn [repeat]. unfold history. cbn [fold_left].
    change (fold_left step (repeat (Settle 0) (2 * k)))
      with (history (repeat (Settle 0) (2 * k))).
    destruct (Hun i) as [Hf Hd].
    change (at_phase InRequest
              {| r_turns := turns; r_target := target; r_i := i; r_phase := p |})
      with {| r_turns := turns; r_target := target; r_i := i;
              r_phase := InRequest |}.
    rewrite settle_single, (resume_in_request turns target i app Hf Hd).
    cbn [fst snd]. rewrite settle_single.
    pose proof (BotSpec.iteration_shouldStopRef (turns i) app) as Hflag.
    rewrite Hgo, Hf, Hd in Hflag. cbn in Hflag.
    rewrite BotSpec.generationLoop_step by exact Hgo.
    rewrite <- (IH (S i) (iteration (turns i) app) InDelay Hun Hflag)
      by lia.
    reflexivity.
Qed.

(** X21: a run on its own is what [startGeneration] describes: on a page
    just opened and idle, a start followed by the settlement of its
    [2 * targetCount] promises, with no other click in between, leaves the
    component in the state of [startGeneration] for turns without a press
    of the stop button. *)
Theorem alone_is_startGeneration (turns : nat -> turn) (app : App) :
  isRunning app = false ->
  unpressed turns ->
  w_app (history (ClickStart turns ::
                  repeat (Settle 0) (2 * Z.to_nat (targetCount app)))
           (opened app))
  = startGeneration turns app.
Proof.
  intros Hidle Hun. unfold startGeneration. rewrite Hidle.
  cbn [history fold_left step opened w_app w_runs]. rewrite Hidle.
  change (fold_left step (repeat (Settle 0) (2 * Z.to_nat (targetCount app))))
    with (history (repeat (Settle 0) (2 * Z.to_nat (targetCount app)))).
  set (app1 := setShouldStop false (setIsRunning true app)).
  destruct (Z.le_gt_cases 0 (targetCount app)) as [Hpos | Hneg].
  - pose proof (alone_from turns (targetCount app1) (Z.to_nat (targetCount app))
                  0%nat app1 InRequest Hun eq_refl) as H.
    cbn zeta in H. specialize (H ltac:(cbn; lia)).
    destruct (enter_turn _ app1) as [app2 r2]. exact H.
  - assert (Hz : Z.to_nat (targetCount app) = 0%nat) by lia.
    change (targetCount app1) with (targetCount app). rewrite Hz.
    unfold enter_turn. cbn [r_i r_target].
    destruct (Z.ltb_spec (Z.of_nat 0) (targetCount app)) as [Hlt | _];
      [cbn in Hlt; lia | reflexivity].
Qed.

Lemma alone_is_startGeneration_witness :
  isRunning (w_app three_wanted) = false /\
  map (fun a => (id a, status a))
      (accounts (startGeneration calm (w_app three_wanted))) =
    [("calm2", SUCCESS); ("calm1", SUCCESS); ("calm0", SUCCESS)] /\
  w_app (history (ClickStart calm :: repeat (Settle 0) 6) (opened (w_app three_wanted)))
  = startGeneration calm (w_app three_wanted).
Proof.
  assert (Hidle : isRunning (w_app three_wanted) = false) by reflexivity.
  assert (Hun : unpressed calm) by (intros j; split; reflexivity).
  split; [exact Hidle | split; [reflexivity |]].
  exact (alone_is_startGeneration calm (w_app three_wanted) Hidle Hun).
Defined.

End BotEventsSpec.
